(** * Claim-extraction RAG: ingestion, retrieval and prompt assembly

    A shallow embedding of [src/ingestion/ingest.py], [src/engine/retriever.py],
    [src/engine/generator.py], [src/server/api.py] and
    [src/interface/dashboard.py], with the properties their specification
    states about them and further properties of the code.

    Python strings are sequences of Unicode code points; they are modelled as
    lists of [N].  The three [re.sub] calls of the text normaliser are modelled
    by a small backtracking matcher run on the very patterns of the source. *)

From Stdlib Require Import NArith ZArith QArith List String Ascii Lia Bool.
From stdpp Require Import base list strings gmap pretty.
Import ListNotations.

(** ** Text: Python [str] as a list of code points *)

Module Text.

Definition char := N.
Definition text := list char.

(** The code points of an ASCII literal. *)
Definition codepoints (s : string) : text :=
  map N_of_ascii (list_ascii_of_string s).

(** [str.isspace] on one code point, which is also the class [\s] of the
    [re] module on [str] patterns: TAB..CR, FS..US, SPACE, NEL, NBSP and the
    Unicode space separators. *)
Definition isspace (c : char) : bool :=
  ((9 <=? c) && (c <=? 13) || (28 <=? c) && (c <=? 32)
   || (c =? 133) || (c =? 160) || (c =? 5760)
   || (8192 <=? c) && (c <=? 8202)
   || (c =? 8232) || (c =? 8233) || (c =? 8239) || (c =? 8287)
   || (c =? 12288))%N.

Global Arguments isspace : simpl never.

Definition SPACE : char := 32%N.
Definition NEWLINE : char := 10%N.
Definition LT : char := 60%N.
Definition GT : char := 62%N.

(** The text left once the longest prefix of characters in [p] is dropped,
    and the length of that prefix. *)
Fixpoint drop_while (p : char -> bool) (s : text) : text :=
  match s with
  | c :: s' => if p c then drop_while p s' else s
  | [] => []
  end.

Fixpoint run (p : char -> bool) (s : text) : nat :=
  match s with
  | c :: s' => if p c then S (run p s') else O
  | [] => O
  end.

(** [str.lstrip()], [str.rstrip()] and [str.strip()] without argument. *)
Definition lstrip (s : text) : text := drop_while isspace s.

Definition rstrip (s : text) : text := rev (lstrip (rev s)).

Definition strip (s : text) : text := rstrip (lstrip s).

(** [sep.join(parts)]. *)
Fixpoint join (sep : text) (parts : list text) : text :=
  match parts with
  | [] => []
  | [p] => p
  | p :: ps => p ++ sep ++ join sep ps
  end.

End Text.

(** ** Regular expressions: the fragment of [re] the normaliser uses *)

Module Re.
Import Text.

(** One-character items: a literal, [.] (anything but a newline, as
    [re.DOTALL] is not set), [\s] and [\S]. *)
Inductive cclass : Type :=
| CLit (c : char)
| CDot
| CSpace
| CNotSpace.

Definition cmatch (cc : cclass) (c : char) : bool :=
  match cc with
  | CLit d => (c =? d)%N
  | CDot => negb (c =? NEWLINE)%N
  | CSpace => isspace c
  | CNotSpace => negb (isspace c)
  end.

(** Patterns: empty, one item, concatenation, ordered alternation [a|b],
    greedy [x+] and lazy [x*?] over one-character items. *)
Inductive regex : Type :=
| REps
| RSet (cc : cclass)
| RCat (r1 r2 : regex)
| RAlt (r1 r2 : regex)
| RPlus (cc : cclass)
| RStarLazy (cc : cclass).

(** A literal string as a pattern. *)
Definition RStr (s : string) : regex :=
  fold_right (fun c r => RCat (RSet (CLit c)) r) REps (codepoints s).

(** Backtracking, in continuation-passing style: [k] matches what follows
    the current item and answers with the number of characters it consumed;
    each item adds its own.  Greedy repetition tries the longest run first,
    lazy repetition the shortest. *)
Fixpoint greedy_star (cc : cclass) (k : text -> option nat) (s : text)
  : option nat :=
  match s with
  | c :: s' =>
      if cmatch cc c then
        match greedy_star cc k s' with
        | Some n => Some (S n)
        | None => k s
        end
      else k s
  | [] => k []
  end.

Fixpoint lazy_star (cc : cclass) (k : text -> option nat) (s : text)
  : option nat :=
  match k s with
  | Some n => Some n
  | None =>
      match s with
      | c :: s' => if cmatch cc c then S <$> lazy_star cc k s' else None
      | [] => None
      end
  end.

Fixpoint bt (r : regex) (k : text -> option nat) (s : text) : option nat :=
  match r with
  | REps => k s
  | RSet cc =>
      match s with
      | c :: s' => if cmatch cc c then S <$> k s' else None
      | [] => None
      end
  | RCat r1 r2 => bt r1 (bt r2 k) s
  | RAlt r1 r2 =>
      match bt r1 k s with
      | Some n => Some n
      | None => bt r2 k s
      end
  | RPlus cc =>
      match s with
      | c :: s' => if cmatch cc c then S <$> greedy_star cc k s' else None
      | [] => None
      end
  | RStarLazy cc => lazy_star cc k s
  end.

(** The length of the match of [r] that starts at the head of [s], if any. *)
Definition match_at (r : regex) (s : text) : option nat :=
  bt r (fun _ => Some 0%nat) s.

(** [re.sub(r, repl, s)] for a pattern that never matches the empty string
    (all three patterns of the normaliser are such, see [match_at_pos]):
    scan from the left; where the pattern matches, emit [repl] and resume
    after the match; elsewhere copy the character.  [skip] counts the
    characters of the current match that are still to be passed over. *)
Fixpoint re_sub_go (r : regex) (repl : text) (skip : nat) (s : text) : text :=
  match s with
  | [] => []
  | c :: s' =>
      match skip with
      | S k => re_sub_go r repl k s'
      | O =>
          match match_at r s with
          | Some (S n) => repl ++ re_sub_go r repl n s'
          | _ => c :: re_sub_go r repl 0 s'
          end
      end
  end.

Definition re_sub (r : regex) (repl : text) (s : text) : text :=
  re_sub_go r repl 0 s.

(** Does [r] match somewhere in [s]?  ([re.search(r, s) is not None]) *)
Fixpoint has_match (r : regex) (s : text) : bool :=
  match s with
  | [] => false
  | _ :: s' =>
      match match_at r s with
      | Some _ => true
      | None => has_match r s'
      end
  end.

End Re.

(** ** Python values that reach the code *)

Module Py.
Import Text.

(** A table cell or a metadata value: a string, an integer, the float NaN
    that pandas puts where a value is missing, or [None]. *)
Inductive value : Type :=
| VStr (s : text)
| VInt (z : Z)
| VNaN
| VNone.

(** [str(v)], as an f-string renders a value. *)
Definition str (v : value) : text :=
  match v with
  | VStr s => s
  | VInt z => codepoints (pretty z)
  | VNaN => codepoints "nan"
  | VNone => codepoints "None"
  end.

Definition is_str (v : value) : bool :=
  match v with VStr _ => true | _ => false end.

End Py.

(** ** Effects: log lines, calls to the libraries, exceptions *)

Module Effects.
Import Text Py.

(** The exceptions that can leave the modelled code, by class. *)
Inductive exn : Type :=
| UnicodeDecodeError
| ParserError
| EmptyDataError
| FileNotFoundError
| KeyError
| ValueError
| OSError
| IsADirectoryError
| PermissionError.

Inductive result (A : Type) : Type :=
| Ok (a : A)
| Raise (e : exn).
Global Arguments Ok {A} a.
Global Arguments Raise {A} e.

(** [loguru] levels. *)
Inductive level : Type := ERROR | WARNING | INFO | DEBUG | SUCCESS.

Inductive encoding : Type := UTF8 | Latin1.

(** The [on_bad_lines] argument of [pandas.read_csv]. *)
Inductive on_bad_lines : Type := BadError | BadWarn | BadSkip.

(** A request to the vector index. *)
Inductive index_call : Type :=
| MMRSearch (query : text) (k fetch_k : Z) (lambda_mult : Q)
| SimilaritySearch (query : text) (k : Z).

(** What pandas reports in a [ParserWarning]: the line of the file it
    skipped.  One event stands for one line reported, however many lines
    pandas puts into one message. *)
Inductive warning : Type :=
| ParserWarning (line : nat).

(** What a run leaves behind, in order. *)
Inductive event : Type :=
| Log (lvl : level) (msg : text)
| ReadCsv (file_name : string) (enc : encoding) (obl : on_bad_lines)
| Warning (w : warning)
| IndexCall (c : index_call).

(** Computations that leave a trace of [E] and may raise. *)
Definition M (E A : Type) : Type := (list E * result A)%type.

Definition ret {E A} (a : A) : M E A := ([], Ok a).

Definition bind {E A B} (m : M E A) (f : A -> M E B) : M E B :=
  match m with
  | (ev, Ok a) => let (ev', r) := f a in (ev ++ ev', r)
  | (ev, Raise e) => (ev, Raise e)
  end.

Definition emit {E} (e : E) : M E unit := ([e], Ok tt).

Definition raise {E A} (e : exn) : M E A := ([], Raise e).

(** A call that leaves no trace. *)
Definition lift {E A} (r : result A) : M E A := ([], r).

(** A computation of a library, its trace read into the caller's. *)
Definition embed {E E' A} (f : E -> E') (m : M E A) : M E' A :=
  (f <$> fst m, snd m).

Definition exn_eqb (a b : exn) : bool :=
  match a, b with
  | UnicodeDecodeError, UnicodeDecodeError
  | ParserError, ParserError
  | EmptyDataError, EmptyDataError
  | FileNotFoundError, FileNotFoundError
  | KeyError, KeyError
  | ValueError, ValueError
  | OSError, OSError
  | IsADirectoryError, IsADirectoryError
  | PermissionError, PermissionError => true
  | _, _ => false
  end.

(** [try: m except e: handler]: only the exception [e] is caught. *)
Definition try_except {E A} (m : M E A) (e : exn) (handler : M E A)
  : M E A :=
  match m with
  | (ev, Raise e') =>
      if exn_eqb e' e then let (ev', r) := handler in (ev ++ ev', r)
      else (ev, Raise e')
  | _ => m
  end.

Definition events {E A} (m : M E A) : list E := fst m.
Definition outcome {E A} (m : M E A) : result A := snd m.

End Effects.

Declare Scope eff_scope.
Delimit Scope eff_scope with eff.
Notation "'do' x <- m ;; k" := (Effects.bind m (fun x => k))
  (at level 10, x name, m at level 99, k at level 200) : eff_scope.
Notation "'exec' m ;; k" := (Effects.bind m (fun _ => k))
  (at level 10, m at level 99, k at level 200) : eff_scope.

(** ** [pandas]: data frames and [read_csv]

    pandas is a library the repository calls; it is modelled by the contract
    of the calls the code makes. *)

Module Pandas.
Import Text Py Effects.

(** A frame: its column labels and its rows, each row giving every column a
    value. *)
Record DataFrame : Type := {
  columns : list string;
  rows : list (gmap string value)
}.

(** [len(df)]. *)
Definition len (df : DataFrame) : nat := length (rows df).

(** [df.empty]: an axis has length 0. *)
Definition empty (df : DataFrame) : bool :=
  match columns df, rows df with
  | [], _ | _, [] => true
  | _, _ => false
  end.

(** [df[name] = v] with a scalar [v]: the column is set on every row, and
    added after the others if new. *)
Definition set_column (name : string) (v : value) (df : DataFrame)
  : DataFrame :=
  {| columns := if bool_decide (name ∈ columns df) then columns df
                else columns df ++ [name];
     rows := (fun r => <[name := v]> r) <$> rows df |}.

(** [df[name] = df[name].apply(f)]. *)
Definition apply_column (name : string) (f : value -> value)
  (df : DataFrame) : DataFrame :=
  {| columns := columns df;
     rows := (fun r => <[name := f (default VNaN (r !! name))]> r)
             <$> rows df |}.

(** A row laid out on the columns [cs]; a column the row lacks holds NaN. *)
Definition reindex (cs : list string) (r : gmap string value)
  : gmap string value :=
  list_to_map ((fun c => (c, default VNaN (r !! c))) <$> cs).

(** The labels of [b] that [a] lacks, appended to [a]. *)
Definition union_columns (a b : list string) : list string :=
  a ++ filter (fun c => c ∉ a) b.

(** [pd.concat(dfs, ignore_index=True)]: the union of the columns in order
    of first appearance, all rows in order, NaN where a frame lacks a
    column; no frame at all is a [ValueError].  Cells are kept as they
    are: the common type pandas gives the numbers of a merged column
    (integers become floats where a frame lacks the column) is not part of
    this model, which is exact on strings and on missing values. *)
Definition concat (dfs : list DataFrame) : result DataFrame :=
  match dfs with
  | [] => Raise ValueError
  | _ =>
      let cs := foldl union_columns [] (columns <$> dfs) in
      Ok {| columns := cs;
            rows := reindex cs <$> List.concat (rows <$> dfs) |}
  end.

(** One line of a table: a well-formed row; a malformed line, with more
    fields than the header has columns; or a line that opens a quoted field
    which the rest of the file does not close. *)
Inductive line : Type :=
| Row (cells : gmap string value)
| BadLine
| OpenQuote.

Record table : Type := {
  header : list string;
  lines : list line
}.

(** The bytes of a file read as UTF-8: a table, or no table when they are
    not valid UTF-8.  The parser splits the bytes into lines before it
    decodes them, so it has gone through some lines, [seen], by the time
    the decoding fails. *)
Inductive utf8_view : Type :=
| Utf8 (t : table)
| NotUtf8 (seen : list line).

(** The bytes of a regular file, by what each decoding gives; latin-1
    decodes any bytes. *)
Record content : Type := {
  as_utf8 : utf8_view;
  as_latin1 : table
}.

(** What is found at a path that exists: a regular file, a directory, or a
    file the process may not open. *)
Inductive file : Type :=
| Regular (c : content)
| Directory
| Denied.

(** The default of [on_bad_lines] in [pandas.read_csv]. *)
Definition default_on_bad_lines : on_bad_lines := BadError.

(** The body of the table under the policy [obl]: a malformed line raises
    under ["error"], is dropped and reported in a [ParserWarning] under
    ["warn"], and dropped silently under ["skip"]; a quoted field left open
    raises under every policy.  [i] is the number of the line in the file,
    whose line 1 is the header. *)
Fixpoint parse_lines (obl : on_bad_lines) (cs : list string) (i : nat)
  (ls : list line) : M warning (list (gmap string value)) :=
  match ls with
  | [] => ret []
  | Row r :: ls' =>
      (do rs <- parse_lines obl cs (S i) ls' ;; ret (reindex cs r :: rs))%eff
  | BadLine :: ls' =>
      match obl with
      | BadError => raise ParserError
      | BadWarn => (exec emit (ParserWarning i) ;; parse_lines obl cs (S i) ls')%eff
      | BadSkip => parse_lines obl cs (S i) ls'
      end
  | OpenQuote :: _ => raise ParserError
  end.

(** The frame of a decoded table; a file without header line has no
    columns to parse. *)
Definition read_table (obl : on_bad_lines) (t : table)
  : M warning DataFrame :=
  match header t with
  | [] => raise EmptyDataError
  | cs =>
      (do rs <- parse_lines obl cs 2 (lines t) ;;
       ret {| columns := cs; rows := rs |})%eff
  end.

(** [pd.read_csv(path, sep="\t", encoding=enc, on_bad_lines=obl)] on what
    is found at [path]. *)
Definition read_csv (f : file) (enc : encoding) (obl : on_bad_lines)
  : M warning DataFrame :=
  match f with
  | Directory => raise IsADirectoryError
  | Denied => raise PermissionError
  | Regular c =>
      match enc with
      | Latin1 => read_table obl (as_latin1 c)
      | UTF8 =>
          match as_utf8 c with
          | Utf8 t => read_table obl t
          | NotUtf8 seen =>
              (exec parse_lines obl [] 2 seen ;; raise UnicodeDecodeError)%eff
          end
      end
  end.

End Pandas.

(** ** [pathlib]: paths as the loader builds and prints them

    [Path] on a POSIX system.  Names are strings of 8-bit characters;
    [pathlib] treats every character other than [/] and [.] alike. *)

Module Pathlib.

Definition SEP : ascii := "/"%char.

(** A path as [pathlib] keeps it: the root ([""], ["/"] or ["//"]) and the
    components after it; there is no drive. *)
Record Path : Type := {
  root : string;
  parts : list string
}.

(** [s.split("/")]; [acc] is the current piece, reversed. *)
Fixpoint split_go (acc : list ascii) (s : string) : list string :=
  match s with
  | EmptyString => [string_of_list_ascii (rev acc)]
  | String c s' =>
      if Ascii.eqb c SEP
      then string_of_list_ascii (rev acc) :: split_go [] s'
      else split_go (c :: acc) s'
  end.

Definition split (s : string) : list string := split_go [] s.

(** [s.lstrip("/")]. *)
Fixpoint lstrip_sep (s : string) : string :=
  match s with
  | String c s' => if Ascii.eqb c SEP then lstrip_sep s' else s
  | EmptyString => EmptyString
  end.

(** [splitroot]: two leading separators are kept as they are, one, or
    three and more, are one. *)
Definition splitroot (part : string) : string * string :=
  match part with
  | String c _ =>
      if Ascii.eqb c SEP then
        let stripped := lstrip_sep part in
        if (String.length part - String.length stripped =? 2)%nat
        then ("//", stripped)
        else ("/", stripped)
      else ("", part)
  | EmptyString => ("", part)
  end.

(** The pieces that make a component: not empty and not [.]. *)
Definition component (x : string) : bool :=
  negb (String.eqb x "") && negb (String.eqb x ".").

(** [Path(s)]. *)
Definition parse (s : string) : Path :=
  let (r, rel) := splitroot s in
  {| root := r; parts := List.filter component (split rel) |}.

(** [p / s]: a path with a root replaces [p]. *)
Definition joinpath (p : Path) (s : string) : Path :=
  let q := parse s in
  if String.eqb (root q) "" then
    {| root := root p; parts := parts p ++ parts q |}
  else q.

(** ["/".join(l)]. *)
Fixpoint join_sep (l : list string) : string :=
  match l with
  | [] => ""
  | [x] => x
  | x :: l' => x +:+ "/" +:+ join_sep l'
  end.

(** [str(p)]. *)
Definition str (p : Path) : string :=
  let s := root p +:+ join_sep (parts p) in
  if String.eqb s "" then "." else s.

(** [p.name]: the last component, if there is one. *)
Definition name (p : Path) : string := default "" (last (parts p)).

(** The index of the last dot: [name.rfind(".")]. *)
Fixpoint rfind_dot (cs : list ascii) (i : nat) : option nat :=
  match cs with
  | [] => None
  | c :: cs' =>
      match rfind_dot cs' (S i) with
      | Some j => Some j
      | None => if Ascii.eqb c "."%char then Some i else None
      end
  end.

(** The suffix of a name: from the last dot on, unless that dot opens or
    ends the name. *)
Definition name_suffix (n : string) : string :=
  let cs := list_ascii_of_string n in
  match rfind_dot cs 0 with
  | Some i =>
      if (0 <? i)%nat && (i <? length cs - 1)%nat
      then string_of_list_ascii (drop i cs)
      else ""
  | None => ""
  end.

(** [p.suffix]. *)
Definition suffix (p : Path) : string := name_suffix (name p).

End Pathlib.

(** ** [src/ingestion/ingest.py] *)

Module Ingest.
Import Text Re Py Effects.

(** [r"http\S+|www\S+|https\S+"]; the flag [re.MULTILINE] of the call only
    changes [^] and [$], which the pattern does not use. *)
Definition url_re : regex :=
  RAlt (RCat (RStr "http") (RPlus CNotSpace))
       (RAlt (RCat (RStr "www") (RPlus CNotSpace))
             (RCat (RStr "https") (RPlus CNotSpace))).

(** [r"<.*?>"] *)
Definition tag_re : regex :=
  RCat (RSet (CLit LT)) (RCat (RStarLazy CDot) (RSet (CLit GT))).

(** [r"\s+"] *)
Definition ws_re : regex := RPlus CSpace.

(** The three substitutions and the strip, on a string. *)
Definition clean_str (t : text) : text :=
  let t1 := re_sub url_re [] t in
  let t2 := re_sub tag_re [] t1 in
  strip (re_sub ws_re [SPACE] t2).

(** [ClaimIngestor._clean_tweet_content]. *)
Definition _clean_tweet_content (v : value) : text :=
  match v with
  | VStr t => clean_str t
  | _ => []
  end.

(** [target_files] of [load_source_data]. *)
Definition target_files : list string :=
  ["claim_dataset.tsv"; "checkworthiness_dataset.tsv"].

Section Loader.
(** What a file is and how [pd.read_csv] reads one is left open here; the
    loader is the code around the calls. *)
Context {file : Type}.
Variable read_csv :
  file -> encoding -> on_bad_lines -> M warning Pandas.DataFrame.

(** [self], with what it sees of the file system: [data_dir] is the
    argument of [__init__]; [dir_files] gives what is found at
    [self.data_dir / name], for the names at which something is found;
    [stat_fails] holds the names at which nothing is found because
    [os.stat] fails with an error that [Path.exists] does not take for
    absence (a path that is too long, a directory that may not be
    searched). *)
Record ClaimIngestor : Type := {
  data_dir : string;
  dir_files : gmap string file;
  stat_fails : gset string
}.

(** [self.data_dir / file_name]. *)
Definition file_path (self : ClaimIngestor) (file_name : string)
  : Pathlib.Path :=
  Pathlib.joinpath (Pathlib.parse (data_dir self)) file_name.

(** [str(self.data_dir / file_name)]. *)
Definition path_str (self : ClaimIngestor) (file_name : string) : text :=
  codepoints (Pathlib.str (file_path self file_name)).

(** [(self.data_dir / file_name).exists()]. *)
Definition path_exists (self : ClaimIngestor) (file_name : string)
  : result bool :=
  match dir_files self !! file_name with
  | Some _ => Ok true
  | None =>
      if bool_decide (file_name ∈ stat_fails self) then Raise OSError
      else Ok false
  end.

(** [ClaimIngestor._validate_tsv], on [self.data_dir / file_name]. *)
Definition _validate_tsv (self : ClaimIngestor) (file_name : string)
  : M event bool :=
  let file_path := file_path self file_name in
  (do found <- lift (path_exists self file_name) ;;
   if negb found then
     exec emit (Log ERROR (codepoints "Missing file: "
                             ++ path_str self file_name)) ;;
     ret false
   else if bool_decide (Pathlib.suffix file_path ≠ ".tsv") then
     exec emit (Log WARNING
                  (codepoints "Unexpected file extension for "
                     ++ codepoints (Pathlib.name file_path))) ;;
     ret false
   else ret true)%eff.

(** The [try] / [except UnicodeDecodeError] block of the loop body. *)
Definition read_source (self : ClaimIngestor) (file_name : string)
  : M event Pandas.DataFrame :=
  match dir_files self !! file_name with
  | None => raise FileNotFoundError
  | Some f =>
      try_except
        (exec emit (ReadCsv file_name UTF8 BadWarn) ;;
         embed Warning (read_csv f UTF8 BadWarn))%eff
        UnicodeDecodeError
        (exec emit (Log DEBUG (codepoints "UTF-8 failed for "
                                 ++ codepoints file_name
                                 ++ codepoints "; falling back to latin-1.")) ;;
         exec emit (ReadCsv file_name Latin1 Pandas.default_on_bad_lines) ;;
         embed Warning (read_csv f Latin1 Pandas.default_on_bad_lines))%eff
  end.

(** The [for file_name in target_files] loop; [dataframes] is the list
    built so far. *)
Fixpoint load_loop (self : ClaimIngestor) (names : list string)
  (dataframes : list Pandas.DataFrame)
  : M event (list Pandas.DataFrame) :=
  match names with
  | [] => ret dataframes
  | file_name :: rest =>
      (do ok <- _validate_tsv self file_name ;;
       if negb ok then load_loop self rest dataframes
       else
         exec emit (Log INFO (codepoints "Reading "
                                ++ codepoints file_name
                                ++ codepoints "...")) ;;
         do df <- read_source self file_name ;;
         if negb (Pandas.empty df) then
           let df' :=
             Pandas.set_column "source_filename"
               (VStr (codepoints file_name)) df in
           exec emit (Log SUCCESS
                        (codepoints "Ingested "
                           ++ codepoints (pretty (Pandas.len df'))
                           ++ codepoints " rows from "
                           ++ codepoints file_name)) ;;
           load_loop self rest (dataframes ++ [df'])
         else load_loop self rest dataframes)%eff
  end.

(** [ClaimIngestor.load_source_data]. *)
Definition load_source_data (self : ClaimIngestor)
  : M event (list Pandas.DataFrame) :=
  load_loop self target_files [].

(** What the two calls of [read_csv] make of [f]: the outcome of the
    UTF-8 read, or that of the latin-1 read when the first raises
    [UnicodeDecodeError]. *)
Definition read_outcome (f : file) : result Pandas.DataFrame :=
  match outcome (read_csv f UTF8 BadWarn) with
  | Raise UnicodeDecodeError =>
      outcome (read_csv f Latin1 Pandas.default_on_bad_lines)
  | r => r
  end.

(** The calls of [read_csv] for a file, by name: none for a name at which
    nothing is found. *)
Definition read_calls (self : ClaimIngestor) (file_name : string)
  : list (string * encoding * on_bad_lines) :=
  match dir_files self !! file_name with
  | None => []
  | Some f =>
      (file_name, UTF8, BadWarn) ::
      match outcome (read_csv f UTF8 BadWarn) with
      | Raise UnicodeDecodeError =>
          [(file_name, Latin1, Pandas.default_on_bad_lines)]
      | _ => []
      end
  end.

(** The frame kept for [file_name], if any: something is found there,
    [read_csv] makes a frame of it, and the frame is not empty. *)
Definition kept_frame (self : ClaimIngestor) (file_name : string)
  : option Pandas.DataFrame :=
  match dir_files self !! file_name with
  | None => None
  | Some f =>
      match read_outcome f with
      | Ok df =>
          if Pandas.empty df then None
          else Some (Pandas.set_column "source_filename"
                       (VStr (codepoints file_name)) df)
      | Raise _ => None
      end
  end.
End Loader.

(** The [pd.read_csv] calls of a run: file, encoding, policy. *)
Definition read_attempts (evs : list event)
  : list (string * encoding * on_bad_lines) :=
  omap (fun e => match e with
                 | ReadCsv n enc obl => Some (n, enc, obl)
                 | _ => None
                 end) evs.

(** [ClaimIngestor.process_and_unify]; indexing a frame by a column it
    lacks is a [KeyError]. *)
Definition process_and_unify (dataframes : list Pandas.DataFrame)
  : M event Pandas.DataFrame :=
  (exec emit (Log INFO
                (codepoints "Merging datasets and cleaning tweet text...")) ;;
   do master_df <- lift (Pandas.concat dataframes) ;;
   if bool_decide ("tweet_text" ∈ Pandas.columns master_df) then
     let master_df :=
       Pandas.apply_column "tweet_text"
         (fun v => VStr (_clean_tweet_content v)) master_df in
     exec emit (Log SUCCESS
                  (codepoints "Knowledge base unified with "
                     ++ codepoints (pretty (Pandas.len master_df))
                     ++ codepoints " records.")) ;;
     ret master_df
   else raise KeyError)%eff.
End Ingest.

(** ** [src/engine/retriever.py] *)

Module Retriever.
Import Text Py Effects.

(** A retrieved entry ([langchain_core.documents.Document]). *)
Record Document : Type := {
  page_content : text;
  metadata : gmap string value
}.

(** The Chroma store, by the two methods [search] calls. *)
Record VectorStore : Type := {
  max_marginal_relevance_search :
    text -> Z -> Z -> Q -> result (list Document);
  similarity_search : text -> Z -> result (list Document)
}.

Record ClaimRetriever : Type := {
  db_path : string;
  vector_db : VectorStore
}.

(** [ClaimRetriever.search(query, k, use_mmr)]. *)
Definition search (self : ClaimRetriever) (query : text) (k : Z)
  (use_mmr : bool) : M event (list Document) :=
  if use_mmr then
    (exec emit (Log INFO (codepoints "Performing MMR search for: '"
                            ++ query ++ codepoints "'")) ;;
     exec emit (IndexCall (MMRSearch query k 20 (1 # 2))) ;;
     lift (max_marginal_relevance_search (vector_db self) query k 20 (1 # 2)))%eff
  else
    (exec emit (Log INFO
                  (codepoints "Performing standard similarity search for: '"
                     ++ query ++ codepoints "'")) ;;
     exec emit (IndexCall (SimilaritySearch query k)) ;;
     lift (similarity_search (vector_db self) query k))%eff.

(** The defaults of the signature: [k=4], [use_mmr=True]. *)
Definition default_k : Z := 4.
Definition default_use_mmr : bool := true.

(** The requests a run sent to the index. *)
Definition index_calls (evs : list event) : list index_call :=
  omap (fun e => match e with IndexCall c => Some c | _ => None end) evs.

(** A call is rejected: it raises, and nothing was asked of the index. *)
Definition rejected {A} (m : M event A) : Prop :=
  (exists e, outcome m = Raise e) /\ index_calls (events m) = [].

(** The candidate pool a request asks for holds at least the [k] entries
    it is to return. *)
Definition pool_covers (c : index_call) : bool :=
  match c with
  | MMRSearch _ k fetch_k _ => (k <=? fetch_k)%Z
  | SimilaritySearch _ _ => true
  end.

(** A store that answers every request with no entry. *)
Definition silent_store : VectorStore :=
  {| max_marginal_relevance_search := fun _ _ _ _ => Ok [];
     similarity_search := fun _ _ => Ok [] |}.

End Retriever.

(** ** [src/engine/generator.py] *)

Module Generator.
Import Text Py Effects Retriever.

(** One element of the list comprehension of [generate_answer]: the
    f-string for the entry at index [i]. *)
Definition source_line (i : nat) (doc : Document) : text :=
  codepoints "Source [" ++ codepoints (pretty (i + 1)%nat)
    ++ codepoints "]: " ++ page_content doc
    ++ codepoints " (Label: "
    ++ str (default VNone (metadata doc !! "class_label"))
    ++ codepoints ")".

(** [context_text] of [generate_answer]. *)
Definition context_text (context : list Document) : text :=
  join [NEWLINE; NEWLINE] (imap source_line context).

(** [ClaimGenerator.generate_answer]; [chain] is the prompt piped into the
    model, called on the two template variables: it gives the content of
    the response as a string, or raises what the call of the model
    raises. *)
Definition generate_answer (chain : text -> text -> result text)
  (query : text) (context : list Document) : M event text :=
  (exec emit (Log INFO (codepoints "Generating response from LLM...")) ;;
   lift (chain (context_text context) query))%eff.

End Generator.

(** ** Predicates the properties of the normaliser are stated with *)

Module Shape.
Import Text Re Ingest.

Definition nonspace (c : char) : bool := negb (isspace c).

(** Does the text start with a whitespace character? *)
Definition head_space (s : text) : bool :=
  match s with
  | c :: _ => isspace c
  | [] => false
  end.

(** Does it end with one? *)
Definition last_space (s : text) : bool := head_space (rev s).

(** Are there two whitespace characters in a row? *)
Fixpoint double_ws (s : text) : bool :=
  match s with
  | c :: s' => (isspace c && head_space s') || double_ws s'
  | [] => false
  end.

(** Every whitespace character is one SPACE standing before a
    non-whitespace character or at the end. *)
Fixpoint collapsed (s : text) : bool :=
  match s with
  | c :: s' =>
      (if isspace c then (c =? SPACE)%N && negb (head_space s') else true)
      && collapsed s'
  | [] => true
  end.

(** [c] does not occur in [s]. *)
Definition lacks (c : char) (s : text) : bool :=
  forallb (fun d => negb (d =? c)%N) s.

(** No [<] of [s] has a [>] anywhere after it. *)
Fixpoint no_lt_before_gt (s : text) : bool :=
  match s with
  | c :: s' => (if (c =? LT)%N then lacks GT s' else true) && no_lt_before_gt s'
  | [] => true
  end.

(** What the specification asks the normaliser's output to be: no URL, no
    tag, no doubled, leading or trailing whitespace. *)
Definition tidy (y : text) : bool :=
  negb (has_match url_re y) && negb (has_match tag_re y)
  && negb (double_ws y) && negb (head_space y) && negb (last_space y).

(** [s] minus the literal prefix [p], if [s] starts with it. *)
Fixpoint strip_prefix (p s : text) : option text :=
  match p with
  | [] => Some s
  | a :: p' =>
      match s with
      | c :: s' => if (c =? a)%N then strip_prefix p' s' else None
      | [] => None
      end
  end.

(** The length of the token that starts with the literal [p] followed by at
    least one non-whitespace character, when [s] starts with such a token. *)
Definition tok_len (p s : text) : option nat :=
  match strip_prefix p s with
  | Some (c :: s') =>
      if nonspace c then Some (length p + S (run nonspace s'))%nat else None
  | _ => None
  end.

(** The literals a URL token can start with, by the alternation of the
    URL pattern. *)
Definition url_lits : list text :=
  [codepoints "http"; codepoints "www"; codepoints "https"].

(** Empty, or starting with whitespace. *)
Definition ws_headed (s : text) : Prop :=
  match s with
  | [] => True
  | c :: _ => isspace c = true
  end.

End Shape.

(** ** Concrete inputs *)

Module Samples.
Import Text Re Py Effects Pandas Ingest Retriever Shape.

(** A URL split by a tag. *)
Definition split_url : text := codepoints "ht<b>tp://x".

(** A [<] and a [>] on two lines. *)
Definition broken_tag : text := [LT; NEWLINE; GT].

(** The first record of the end-to-end scenario of the specification. *)
Definition cuba_tweet : text :=
  codepoints "Vaccine trials begin in Cuba http://x.co".

(** A table of two rows around one malformed line. *)
Definition cuba_row : gmap string value :=
  {[ "tweet_id" := VInt 1; "tweet_text" := VStr cuba_tweet;
     "class_label" := VStr (codepoints "A") ]}.

Definition other_row : gmap string value :=
  {[ "tweet_id" := VInt 2;
     "tweet_text" := VStr (codepoints "No relation to vaccines") ]}.

Definition ragged_table : table :=
  {| header := ["tweet_id"; "tweet_text"; "class_label"];
     lines := [Row cuba_row; BadLine; Row other_row] |}.

(** The same table in a file that is valid UTF-8, and in one that is not. *)
Definition utf8_file : file :=
  Regular {| as_utf8 := Utf8 ragged_table; as_latin1 := ragged_table |}.

Definition latin1_file : file :=
  Regular {| as_utf8 := NotUtf8 (lines ragged_table);
             as_latin1 := ragged_table |}.

(** A header and nothing else. *)
Definition header_only_file : file :=
  let t := {| header := ["tweet_id"; "tweet_text"]; lines := [] |} in
  Regular {| as_utf8 := Utf8 t; as_latin1 := t |}.

Definition ingestor_with (f : file) : @ClaimIngestor file :=
  {| data_dir := "data";
     dir_files := {[ "claim_dataset.tsv" := f ]};
     stat_fails := ∅ |}.

(** Two frames, the second without the text column. *)
Definition two_frames : list DataFrame :=
  [ {| columns := ["tweet_id"; "tweet_text"];
       rows := [ {[ "tweet_id" := VInt 1; "tweet_text" := VStr cuba_tweet ]} ] |};
    {| columns := ["tweet_id"];
       rows := [ {[ "tweet_id" := VInt 2 ]} ] |} ].

Definition sample_retriever : ClaimRetriever :=
  {| db_path := "db/chroma_db"; vector_db := silent_store |}.

Definition labelled_doc : Document :=
  {| page_content := codepoints "Vaccine trials begin in Cuba";
     metadata := {[ "class_label" := VStr (codepoints "A") ]} |}.

Definition unlabelled_doc : Document :=
  {| page_content := codepoints "No relation to vaccines"; metadata := ∅ |}.

End Samples.

(** ** Words of a text *)

Module Words.
Import Text Shape.

(** [str.split()] without argument: the maximal runs of non-whitespace
    characters, in order.  [acc] is the current run, reversed. *)
Fixpoint split_go (acc : text) (s : text) : list text :=
  match s with
  | [] => match acc with [] => [] | _ => [rev acc] end
  | c :: s' =>
      if isspace c then
        match acc with
        | [] => split_go [] s'
        | _ => rev acc :: split_go [] s'
        end
      else split_go (c :: acc) s'
  end.

Definition split (s : text) : list text := split_go [] s.

(** A token the URL pattern removes whole when it stands between
    whitespace: [http] or [www], then one or more characters, none of them
    whitespace. *)
Definition url_token (u : text) : Prop :=
  exists p rest, (p = codepoints "http" \/ p = codepoints "www") /\
    u = p ++ rest /\ rest <> [] /\ forallb nonspace rest = true.

(** Empty, or ending with whitespace. *)
Definition ws_tailed (s : text) : Prop := s = [] \/ last_space s = true.

Definition RBRACKET : ascii := "]"%char.

(** The text an entry of the context opens with: its number. *)
Definition source_header (i : nat) : text :=
  codepoints "Source [" ++ codepoints (pretty (i + 1)%nat) ++ codepoints "]: ".

End Words.

(** ** The script of [src/ingestion/ingest.py] *)

Module IngestMain.
Import Text Py Effects Pandas Ingest Retriever.

(** What the script leaves behind: the events of the pipeline and the lines
    it prints. *)
Inductive output : Type :=
| Ev (e : event)
| Print (line : text).

Definition test_query : text :=
  codepoints "Is there any news about COVID-19 vaccines in Barbados?".

(** [d[key]] on a metadata dictionary. *)
Definition getitem (d : gmap string value) (key : string) : result value :=
  match d !! key with
  | Some v => Ok v
  | None => Raise KeyError
  end.

(** The body of the loop over [enumerate(top_matches)], from index [i]. *)
Fixpoint print_matches (i : nat) (top_matches : list Document)
  : M output unit :=
  match top_matches with
  | [] => ret tt
  | match_ :: rest =>
      (exec emit (Print (NEWLINE :: codepoints "Result "
                           ++ codepoints (pretty (i + 1)%nat)
                           ++ codepoints ":")) ;;
       exec emit (Print (codepoints "Text: "
                           ++ take 120 (page_content match_)
                           ++ codepoints "...")) ;;
       do source_filename <- lift (getitem (metadata match_) "source_filename") ;;
       do tweet_id <- lift (getitem (metadata match_) "tweet_id") ;;
       exec emit (Print (codepoints "Meta: " ++ str source_filename
                           ++ codepoints " (ID: " ++ str tweet_id
                           ++ codepoints ")")) ;;
       print_matches (S i) rest)%eff
  end.

Section Script.
Context {file : Type}.
Variable read_csv :
  file -> encoding -> on_bad_lines -> M warning DataFrame.
(** [ClaimIngestor.build_vector_index]: loading, splitting, embedding and
    storing are done by libraries; the method is taken as given. *)
Variable build_vector_index : DataFrame -> M event VectorStore.

(** The block under [if __name__ == "__main__"], for the ingestor [self]
    it builds. *)
Definition main (self : @ClaimIngestor file) : M output unit :=
  (do raw_dfs <- embed Ev (load_source_data read_csv self) ;;
   match raw_dfs with
   | [] => ret tt
   | _ =>
       do unified_data <- embed Ev (process_and_unify raw_dfs) ;;
       do vector_store <- embed Ev (build_vector_index unified_data) ;;
       exec emit (Print (NEWLINE :: repeat 61%N 45)) ;;
       exec emit (Print (codepoints "KNOWLEDGE BASE READY")) ;;
       exec emit (Print (repeat 61%N 45)) ;;
       exec emit (Ev (Log INFO (codepoints "Running sanity check for: "
                                  ++ test_query))) ;;
       exec emit (Ev (IndexCall (SimilaritySearch test_query 2))) ;;
       do top_matches <- lift (similarity_search vector_store test_query 2) ;;
       print_matches 0 top_matches
   end)%eff.

(** The frame the script hands to [build_vector_index], if it gets that
    far. *)
Definition unified_input (self : @ClaimIngestor file)
  : M event (option DataFrame) :=
  (do raw_dfs <- load_source_data read_csv self ;;
   match raw_dfs with
   | [] => ret None
   | _ => do unified_data <- process_and_unify raw_dfs ;;
          ret (Some unified_data)
   end)%eff.
End Script.

(** The match has both keys the loop reads. *)
Definition keyed (m : Document) : bool :=
  bool_decide (is_Some (metadata m !! "source_filename"))
  && bool_decide (is_Some (metadata m !! "tweet_id")).

(** The lines printed, and the events of the pipeline. *)
Definition printed (out : list output) : list text :=
  omap (fun o => match o with Print l => Some l | _ => None end) out.

Definition logged (out : list output) : list event :=
  omap (fun o => match o with Ev e => Some e | _ => None end) out.

End IngestMain.

(** ** [ClaimGenerator.__init__] *)

Module GeneratorInit.
Import Text Py Effects.

(** The arguments [ChatGroq] is built with. *)
Record ChatGroq : Type := {
  temperature : Z;
  model_name : string;
  groq_api_key : string
}.

Definition default_model_name : string := "llama-3.3-70b-versatile".

(** [ClaimGenerator.__init__(model_name)]; [environ] is the process
    environment once [load_dotenv()] has run.  [not api_key] holds for a
    variable that is unset and for one that is empty. *)
Definition __init__ (environ : gmap string string) (model_name : string)
  : M event ChatGroq :=
  let api_key := environ !! "GROQ_API_KEY" in
  match api_key with
  | None | Some EmptyString =>
      (exec emit (Log ERROR
                    (codepoints "GROQ_API_KEY not found in environment.")) ;;
       raise ValueError)%eff
  | Some key =>
      (exec emit (Log INFO (codepoints "Generator initialized with model: "
                              ++ codepoints model_name)) ;;
       ret {| temperature := 0; model_name := model_name;
              groq_api_key := key |})%eff
  end.

End GeneratorInit.

(** ** [src/server/api.py] *)

Module Api.
Import Text Py Effects Retriever.

(** [UserQuery], for a request whose [count] is an integer. *)
Record UserQuery : Type := {
  query : text;
  count : Z
}.

(** The value of [count] when the request does not give one. *)
Definition default_count : Z := 3.

(** One element of [sources]: the dictionary with keys ["text"] and
    ["metadata"]. *)
Record Source : Type := {
  text_ : text;
  metadata_ : gmap string value
}.

Record ApiResponse : Type := {
  answer : text;
  sources : list Source
}.

Record HTTPException : Type := {
  status_code : Z;
  detail : text
}.

(** What the endpoint ends with: the response, or the [HTTPException] it
    raises. *)
Inductive reply : Type :=
| Response (r : ApiResponse)
| HTTPError (e : HTTPException).

Definition error_detail : text :=
  codepoints "The RAG engine encountered an unexpected error while processing your request..".

Section Endpoint.
(** The two objects built when the module is loaded, [searcher] and
    [talker]; of [talker] the endpoint uses [generate_answer], which may
    raise.  [exn_str] is [str(e)]. *)
Variable searcher : ClaimRetriever.
Variable talker_generate_answer : text -> list Document -> M event text.
Variable exn_str : exn -> text.

(** The [try] block of [handle_question]. *)
Definition answer_question (request : UserQuery) : M event ApiResponse :=
  (exec emit (Log INFO (codepoints "New request received: "
                          ++ query request)) ;;
   do relevant_docs <-
     search searcher (query request) (count request) default_use_mmr ;;
   do final_answer <- talker_generate_answer (query request) relevant_docs ;;
   let evidence :=
     (fun doc => {| text_ := page_content doc; metadata_ := metadata doc |})
       <$> relevant_docs in
   ret {| answer := final_answer; sources := evidence |})%eff.

(** [handle_question]: every exception of the block is logged and replaced
    by one [HTTPException]. *)
Definition handle_question (request : UserQuery) : list event * reply :=
  match answer_question request with
  | (ev, Ok r) => (ev, Response r)
  | (ev, Raise e) =>
      (ev ++ [Log ERROR
                (codepoints "Something went wrong while processing the question: "
                   ++ exn_str e)],
       HTTPError {| status_code := 500; detail := error_detail |})
  end.
End Endpoint.

End Api.

(** ** [src/interface/dashboard.py] *)

Module Dashboard.
Import Text Py Effects Api.

(** The bounds and the default of the slider [source_count]. *)
Definition slider_min : Z := 1.
Definition slider_max : Z := 5.
Definition slider_default : Z := 3.

Definition slider_value (v : Z) : Prop := (slider_min <= v <= slider_max)%Z.

(** The JSON body posted to [/ask]. *)
Definition ask_json (prompt : text) (source_count : Z) : UserQuery :=
  {| query := prompt; count := source_count |}.

Inductive role : Type := User | Assistant.

(** One entry of [st.session_state.messages]. *)
Record message : Type := {
  msg_role : role;
  content : text
}.

(** What [requests.post] gives: a response with its status and, when the
    body is the JSON of an [ApiResponse], that body; a
    [ConnectionError]; or another exception (a timeout, say). *)
Inductive post_result : Type :=
| HttpResponse (status : Z) (data : option ApiResponse)
| ConnectionError
| OtherException.

(** What a run of the script puts on the page after the chat input. *)
Inductive widget : Type :=
| Markdown (r : role) (body : text)
| Card (header tag caption : text)
| ErrorBox (body : text).

(** One column of the evidence expander: the source at index [i]. *)
Definition card (i : nat) (source : Source) : widget :=
  let label := default (VStr (codepoints "Claim"))
                 (metadata_ source !! "class_label") in
  Card (codepoints "**Source " ++ codepoints (pretty (i + 1)%nat)
          ++ codepoints "**")
       (codepoints "Tag: " ++ str label)
       (take 200 (text_ source) ++ codepoints "...").

(** One run of the script from [st.chat_input] on: the history after it,
    what was drawn, and whether the run ended in an uncaught exception.
    An empty prompt is no prompt. *)
Definition on_prompt (post : UserQuery -> post_result) (source_count : Z)
  (messages : list message) (prompt : option text)
  : list message * list widget * bool :=
  match prompt with
  | None | Some [] => (messages, [], false)
  | Some prompt =>
      let messages := messages ++ [{| msg_role := User; content := prompt |}] in
      let drawn := [Markdown User prompt] in
      match post (ask_json prompt source_count) with
      | HttpResponse status data =>
          if (status =? 200)%Z then
            match data with
            | Some data =>
                (messages ++ [{| msg_role := Assistant;
                                 content := answer data |}],
                 drawn ++ Markdown Assistant (answer data)
                       :: imap card (sources data),
                 false)
            | None => (messages, drawn, true)
            end
          else
            (messages,
             drawn ++ [ErrorBox
                         (codepoints "Engine Error: The API is unreachable.")],
             false)
      | ConnectionError =>
          (messages,
           drawn ++ [ErrorBox
                       (codepoints "Offline: Ensure the FastAPI server is running on port 8000.")],
           false)
      | OtherException => (messages, drawn, true)
      end
  end.

(** The values JSON carries as they are: strings, integers and [None],
    but not the float NaN. *)
Definition json_value (v : value) : bool :=
  match v with
  | VNaN => false
  | _ => true
  end.

(** A response all of whose metadata JSON carries. *)
Definition json_safe (r : ApiResponse) : Prop :=
  Forall (fun s => map_Forall (fun _ v => json_value v = true) (metadata_ s))
    (sources r).

(** The backend as the page sees it when the server runs [handler] for
    [/ask]: a response that JSON carries is status 200 with its JSON, read
    back as it was written; what becomes of a response with a NaN depends
    on the JSON encoder of the server and is left open, as [other]; an
    [HTTPException] is its status without a body. *)
Definition post_via (other : ApiResponse -> post_result)
  (handler : UserQuery -> list event * reply) : UserQuery -> post_result :=
  fun q =>
    match (handler q).2 with
    | Response r =>
        if bool_decide (json_safe r) then HttpResponse 200 (Some r)
        else other r
    | HTTPError e => HttpResponse (status_code e) None
    end.



End Dashboard.

(** ** More concrete inputs *)

Module MoreSamples.
Import Text Py Effects Pandas Ingest Retriever Samples.

(** A text with whitespace of several kinds and no URL or tag. *)
Definition spaced_text : text :=
  [SPACE; 9%N] ++ codepoints "Vaccine   trials" ++ [NEWLINE; SPACE]
    ++ codepoints "begin" ++ [160%N].

(** A store whose matches carry no metadata, and a build that returns it. *)
Definition keyless_store : VectorStore :=
  {| max_marginal_relevance_search := fun _ _ _ _ => Ok [];
     similarity_search := fun _ _ => Ok [unlabelled_doc] |}.

Definition keyless_build (df : DataFrame) : M event VectorStore :=
  ret keyless_store.

(** A retriever that finds two entries, and one whose index fails. *)
Definition two_docs_retriever : ClaimRetriever :=
  {| db_path := "db/chroma_db";
     vector_db :=
       {| max_marginal_relevance_search :=
            fun _ _ _ _ => Ok [labelled_doc; unlabelled_doc];
          similarity_search := fun _ _ => Ok [labelled_doc; unlabelled_doc] |} |}.

Definition failing_retriever : ClaimRetriever :=
  {| db_path := "db/chroma_db";
     vector_db :=
       {| max_marginal_relevance_search := fun _ _ _ _ => Raise ValueError;
          similarity_search := fun _ _ => Raise ValueError |} |}.

(** A model that answers with the context it is given, and one that
    cannot be reached. *)
Definition echo_chain (context query : text) : result text := Ok context.

Definition failing_chain (context query : text) : result text :=
  Raise OSError.

Definition no_exn_str (e : exn) : text := [].

End MoreSamples.

(** ** The matcher and [re.sub] *)

Module ReFacts.
Import Text Re Shape Ingest.

Lemma drop_run p (s : text) : drop (run p s) s = drop_while p s.
Proof.
  induction s as [|c s IH]; simpl; [done|].
  destruct (p c); simpl; auto.
Qed.

Lemma drop_while_head p (s : text) :
  match drop_while p s with
  | [] => True
  | c :: _ => p c = false
  end.
Proof.
  induction s as [|c s IH]; simpl; [done|].
  destruct (p c) eqn:E; simpl; auto.
Qed.

Lemma drop_while_suffix p (s : text) : drop_while p s `suffix_of` s.
Proof.
  induction s as [|c s IH]; simpl; [done|].
  destruct (p c); [by apply suffix_cons_r | done].
Qed.

Lemma re_sub_go_drop r repl n (s : text) :
  re_sub_go r repl n s = re_sub r repl (drop n s).
Proof.
  revert n. induction s as [|c s IH]; intros [|n]; simpl; done.
Qed.

(** The equation [re.sub] obeys at a non-empty text. *)
Lemma re_sub_cons r repl c (s : text) :
  re_sub r repl (c :: s) =
  match match_at r (c :: s) with
  | Some (S n) => repl ++ re_sub r repl (drop n s)
  | _ => c :: re_sub r repl s
  end.
Proof.
  unfold re_sub at 1. cbn [re_sub_go].
  destruct (match_at r (c :: s)) as [[|n]|]; [done| |done].
  by rewrite re_sub_go_drop.
Qed.

Lemma re_sub_nil r repl : re_sub r repl [] = [].
Proof. done. Qed.

(** Induction along the scan of [re.sub]. *)
Lemma re_sub_ind r repl (P : text -> text -> Prop) :
  P [] [] ->
  (forall c s n, match_at r (c :: s) = Some (S n) ->
     P (drop n s) (re_sub r repl (drop n s)) ->
     P (c :: s) (repl ++ re_sub r repl (drop n s))) ->
  (forall c s, match_at r (c :: s) = None \/ match_at r (c :: s) = Some O ->
     P s (re_sub r repl s) ->
     P (c :: s) (c :: re_sub r repl s)) ->
  forall s, P s (re_sub r repl s).
Proof.
  intros Hnil Hm Hc s.
  remember (length s) as k eqn:Hk.
  revert s Hk. induction k as [k IH] using lt_wf_ind. intros s Hk.
  destruct s as [|c s]; [exact Hnil|].
  rewrite re_sub_cons.
  destruct (match_at r (c :: s)) as [[|n]|] eqn:E.
  - apply Hc; [by right|]. apply (IH (length s)); simpl in *; lia.
  - apply Hm; [done|].
    apply (IH (length (drop n s))); [|done].
    rewrite length_drop. simpl in *. lia.
  - apply Hc; [by left|]. apply (IH (length s)); simpl in *; lia.
Qed.

(** Where the pattern matches nowhere, [re.sub] changes nothing. *)
Lemma re_sub_id r repl (s : text) :
  has_match r s = false -> re_sub r repl s = s.
Proof.
  induction s as [|c s IH]; [done|].
  simpl. intros H. rewrite re_sub_cons.
  destruct (match_at r (c :: s)); [done|].
  by rewrite IH.
Qed.

Lemma has_match_suffix r (s t : text) :
  t `suffix_of` s -> has_match r s = false -> has_match r t = false.
Proof.
  intros [u ->]. induction u as [|c u IH]; [done|].
  simpl. destruct (match_at r _); [done|]. exact IH.
Qed.

(** *** The three patterns of the normaliser *)

Lemma greedy_star_const cc (s : text) :
  greedy_star cc (fun _ => Some 0%nat) s = Some (run (cmatch cc) s).
Proof.
  induction s as [|c s IH]; simpl; [done|].
  destruct (cmatch cc c); [by rewrite IH | done].
Qed.

Lemma match_ws_cons c (s : text) :
  match_at ws_re (c :: s) =
  if isspace c then Some (S (run isspace s)) else None.
Proof.
  unfold match_at, ws_re. simpl.
  destruct (isspace c); [|done].
  by rewrite (greedy_star_const CSpace).
Qed.

Lemma strip_prefix_Some (p s s' : text) :
  strip_prefix p s = Some s' <-> s = p ++ s'.
Proof.
  revert s. induction p as [|a p IH]; intros s; simpl.
  - split; congruence.
  - destruct s as [|c s]; [split; discriminate|].
    destruct (N.eqb_spec c a) as [->|Hne].
    + rewrite IH. split; congruence.
    + split; [discriminate | congruence].
Qed.

Lemma bt_lit (p : text) k (s : text) :
  bt (fold_right (fun c r => RCat (RSet (CLit c)) r) REps p) k s =
  match strip_prefix p s with
  | Some s' => (fun n => (length p + n)%nat) <$> k s'
  | None => None
  end.
Proof.
  revert s. induction p as [|a p IH]; intros s; simpl.
  - by destruct (k s).
  - destruct s as [|c s]; [done|].
    destruct (c =? a)%N; [|done].
    rewrite IH. destruct (strip_prefix p s); [|done].
    by destruct (k t).
Qed.

Lemma bt_tok (lit : string) (s : text) :
  bt (RCat (RStr lit) (RPlus CNotSpace)) (fun _ => Some 0%nat) s =
  tok_len (codepoints lit) s.
Proof.
  unfold RStr, tok_len. cbn [bt]. rewrite bt_lit.
  destruct (strip_prefix (codepoints lit) s) as [[|c s']|]; try done.
  cbn [bt cmatch]. unfold nonspace.
  destruct (negb (isspace c)); [|done].
  rewrite (greedy_star_const CNotSpace). simpl.
  do 2 f_equal.
Qed.

Lemma bt_alt r1 r2 k (s : text) :
  bt (RAlt r1 r2) k s =
  match bt r1 k s with Some n => Some n | None => bt r2 k s end.
Proof. done. Qed.

Lemma match_url (s : text) :
  match_at url_re s =
  match tok_len (codepoints "http") s with
  | Some n => Some n
  | None =>
      match tok_len (codepoints "www") s with
      | Some n => Some n
      | None => tok_len (codepoints "https") s
      end
  end.
Proof.
  unfold match_at, url_re. rewrite !bt_alt. by rewrite !bt_tok.
Qed.

Lemma tok_len_Some (p s : text) n :
  tok_len p s = Some n ->
  exists c s', s = p ++ c :: s' /\ nonspace c = true /\
               n = (length p + S (run nonspace s'))%nat.
Proof.
  unfold tok_len. destruct (strip_prefix p s) as [[|c s']|] eqn:E; try done.
  destruct (nonspace c) eqn:Hc; [|done].
  intros [= <-]. apply strip_prefix_Some in E. eauto.
Qed.

Lemma tok_len_app (p : text) c (s' : text) :
  nonspace c = true ->
  tok_len p (p ++ c :: s') = Some (length p + S (run nonspace s'))%nat.
Proof.
  intros Hc. unfold tok_len.
  assert (strip_prefix p (p ++ c :: s') = Some (c :: s')) as ->
    by by apply strip_prefix_Some.
  by rewrite Hc.
Qed.

Lemma match_url_inv (s : text) n :
  match_at url_re s = Some n ->
  exists p c s', p ∈ url_lits /\ s = p ++ c :: s' /\ nonspace c = true /\
                 n = (length p + S (run nonspace s'))%nat.
Proof.
  rewrite match_url.
  destruct (tok_len (codepoints "http") s) eqn:E1.
  { intros [= <-]. apply tok_len_Some in E1 as (c & s' & ? & ? & ?).
    exists (codepoints "http"), c, s'. repeat split; try done.
    unfold url_lits. set_solver. }
  destruct (tok_len (codepoints "www") s) eqn:E2.
  { intros [= <-]. apply tok_len_Some in E2 as (c & s' & ? & ? & ?).
    exists (codepoints "www"), c, s'. repeat split; try done.
    unfold url_lits. set_solver. }
  intros E3. apply tok_len_Some in E3 as (c & s' & ? & ? & ?).
  exists (codepoints "https"), c, s'. repeat split; try done.
  unfold url_lits. set_solver.
Qed.

Lemma match_url_ext (p : text) c (s' : text) :
  p ∈ url_lits -> nonspace c = true -> match_at url_re (p ++ c :: s') <> None.
Proof.
  intros Hp Hc. rewrite match_url.
  unfold url_lits in Hp.
  apply elem_of_cons in Hp as [->|Hp].
  { by rewrite tok_len_app. }
  destruct (tok_len (codepoints "http") _); [done|].
  apply elem_of_cons in Hp as [->|Hp].
  { by rewrite tok_len_app. }
  destruct (tok_len (codepoints "www") _); [done|].
  apply elem_of_cons in Hp as [->|Hp]; [|by apply elem_of_nil in Hp].
  by rewrite tok_len_app.
Qed.

Lemma url_lits_nonspace (p : text) :
  p ∈ url_lits -> forallb nonspace p = true /\ p <> [].
Proof.
  unfold url_lits. intros Hp.
  repeat (apply elem_of_cons in Hp as [->|Hp]; [by vm_compute|]).
  by apply elem_of_nil in Hp.
Qed.

Lemma lazy_dot_gt (s : text) n :
  lazy_star CDot (bt (RSet (CLit GT)) (fun _ => Some 0%nat)) s = Some n ->
  lacks GT s = false.
Proof.
  revert n. induction s as [|c s IH]; intros n; simpl; [done|].
  destruct (N.eqb_spec c GT) as [->|Hne]; [done|].
  simpl. destruct (negb (c =? NEWLINE)%N); [|done].
  destruct (lazy_star _ _ s) eqn:E; [|done].
  intros _. by apply (IH n0).
Qed.

Lemma match_tag_inv (s : text) n :
  match_at tag_re s = Some n ->
  exists s', s = LT :: s' /\ lacks GT s' = false /\ n <> 0%nat.
Proof.
  unfold match_at, tag_re. cbn [bt].
  destruct s as [|c s]; [done|].
  cbn [cmatch]. destruct (N.eqb_spec c LT) as [->|Hne]; [|done].
  destruct (lazy_star _ _ s) eqn:E; [|done].
  simpl. intros [= <-]. exists s. split; [done|]. split; [|done].
  by apply lazy_dot_gt in E.
Qed.

(** None of the three patterns matches the empty string. *)
Lemma match_at_pos r (s : text) :
  r = url_re \/ r = tag_re \/ r = ws_re -> match_at r s <> Some 0%nat.
Proof.
  intros [->|[->| ->]] E.
  - apply match_url_inv in E as (p & c & s' & _ & _ & _ & E). lia.
  - by apply match_tag_inv in E as (s' & _ & _ & E).
  - destruct s as [|c s]; [done|].
    rewrite match_ws_cons in E. by destruct (isspace c).
Qed.

Section Prefix.
Variables (r : regex) (repl : text).
Hypothesis Hresume : forall c (s : text) n,
  match_at r (c :: s) = Some (S n) ->
  ws_headed (repl ++ re_sub r repl (drop n s)).

(** A whitespace-free prefix of the output is a prefix of the input. *)
Lemma re_sub_nonspace_prefix (s w rest : text) :
  forallb nonspace w = true ->
  re_sub r repl s = w ++ rest ->
  exists rest', s = w ++ rest'.
Proof.
  revert w rest. induction s as [|c s IH]; intros w rest Hw.
  - rewrite re_sub_nil. intros E. symmetry in E.
    apply app_eq_nil in E as [-> _]. by exists [].
  - destruct w as [|d w]; [by eexists|].
    simpl in Hw. apply andb_true_iff in Hw as [Hd Hw].
    rewrite re_sub_cons.
    destruct (match_at r (c :: s)) as [[|n]|] eqn:E.
    + intros [= -> E']. apply IH in E' as [rest' ->]; [|done]. by eexists.
    + intros E'. apply Hresume in E. rewrite E' in E. simpl in E.
      unfold nonspace in Hd. by rewrite E in Hd.
    + intros [= -> E']. apply IH in E' as [rest' ->]; [|done]. by eexists.
Qed.

(** So no URL appears at a position where the input had none. *)
Lemma url_head_transfer c (s : text) :
  match_at url_re (c :: s) = None ->
  match_at url_re (c :: re_sub r repl s) = None.
Proof.
  intros Hnone.
  destruct (match_at url_re (c :: re_sub r repl s)) eqn:E; [exfalso|done].
  apply match_url_inv in E as (p & d & s' & Hp & E & Hd & _).
  destruct (url_lits_nonspace p Hp) as [Hns Hne].
  destruct p as [|c' p]; [done|]. simpl in E. injection E as <- E.
  simpl in Hns. apply andb_true_iff in Hns as [_ Hns].
  destruct (re_sub_nonspace_prefix s (p ++ [d]) s') as [rest' ->].
  { rewrite forallb_app, Hns. simpl. by rewrite Hd. }
  { by rewrite <- app_assoc. }
  rewrite <- app_assoc in Hnone. simpl in Hnone.
  by apply (match_url_ext (c :: p) d rest') in Hnone.
Qed.
End Prefix.

Lemma match_url_space c (s : text) :
  isspace c = true -> match_at url_re (c :: s) = None.
Proof.
  intros Hc. destruct (match_at url_re (c :: s)) eqn:E; [exfalso|done].
  apply match_url_inv in E as (p & d & s' & Hp & E & _).
  destruct (url_lits_nonspace p Hp) as [Hns Hne].
  destruct p as [|c' p]; [done|]. injection E as <- _.
  simpl in Hns. unfold nonspace in Hns. by rewrite Hc in Hns.
Qed.

Lemma ws_headed_sub_url (s : text) :
  ws_headed s -> ws_headed (re_sub url_re [] s).
Proof.
  destruct s as [|c s]; [done|]. simpl. intros Hc.
  rewrite re_sub_cons, match_url_space; done.
Qed.

Lemma resume_url c (s : text) n :
  match_at url_re (c :: s) = Some (S n) ->
  ws_headed ([] ++ re_sub url_re [] (drop n s)).
Proof.
  intros E. apply match_url_inv in E as (p & d & s' & Hp & E & Hd & Hn).
  apply ws_headed_sub_url.
  change (drop n s) with (drop (S n) (c :: s)).
  rewrite E, Hn, drop_app_add' by done. cbn [drop]. rewrite drop_run.
  pose proof (drop_while_head nonspace s') as H.
  destruct (drop_while nonspace s'); [done|]. simpl.
  unfold nonspace in H. by destruct (isspace c0).
Qed.

Lemma resume_ws c (s : text) n :
  match_at ws_re (c :: s) = Some (S n) ->
  ws_headed ([SPACE] ++ re_sub ws_re [SPACE] (drop n s)).
Proof. done. Qed.

(** The output of the URL pass holds no URL. *)
Lemma sub_url_free (s : text) : has_match url_re (re_sub url_re [] s) = false.
Proof.
  apply (re_sub_ind url_re [] (fun _ out => has_match url_re out = false)).
  - done.
  - done.
  - intros c t Hc IH. simpl.
    rewrite (url_head_transfer url_re [] resume_url); [done|].
    destruct Hc as [Hc|Hc]; [done|]. by apply match_at_pos in Hc; auto.
Qed.

(** The whitespace pass creates none. *)
Lemma sub_ws_url_free (s : text) :
  has_match url_re s = false ->
  has_match url_re (re_sub ws_re [SPACE] s) = false.
Proof.
  apply (re_sub_ind ws_re [SPACE]
           (fun s out => has_match url_re s = false ->
                         has_match url_re out = false)).
  - done.
  - intros c t n E IH H. cbn [app has_match].
    rewrite match_url_space by done. apply IH.
    eapply has_match_suffix; [|exact H].
    apply suffix_cons_r, suffix_drop.
  - intros c t _ IH H. simpl in H.
    destruct (match_at url_re (c :: t)) eqn:E; [done|].
    cbn [has_match].
    rewrite (url_head_transfer ws_re [SPACE] resume_ws) by done. auto.
Qed.

(** *** [strip] *)

Lemma lstrip_head (s : text) : head_space (lstrip s) = false.
Proof.
  pose proof (drop_while_head isspace s) as H. unfold lstrip.
  by destruct (drop_while isspace s).
Qed.

Lemma lstrip_fix (s : text) : head_space s = false -> lstrip s = s.
Proof. destruct s as [|c s]; [done|]. unfold lstrip. simpl. by intros ->. Qed.

Lemma lstrip_app (a b : text) :
  lstrip (a ++ b) = if forallb isspace a then lstrip b else lstrip a ++ b.
Proof.
  induction a as [|c a IH]; [done|]. unfold lstrip in *. simpl.
  by destruct (isspace c).
Qed.

Lemma rstrip_prefix (s : text) : rstrip s `prefix_of` s.
Proof.
  unfold rstrip. destruct (drop_while_suffix isspace (rev s)) as [u Hu].
  exists (rev u). fold (lstrip (rev s)) in Hu.
  by rewrite <- rev_app_distr, <- Hu, rev_involutive.
Qed.

Lemma rstrip_last (s : text) : last_space (rstrip s) = false.
Proof.
  unfold last_space, rstrip. rewrite rev_involutive. apply lstrip_head.
Qed.

Lemma rstrip_idem (s : text) : rstrip (rstrip s) = rstrip s.
Proof.
  unfold rstrip. rewrite rev_involutive.
  by rewrite (lstrip_fix (lstrip _)) by apply lstrip_head.
Qed.

Lemma rstrip_head (s : text) :
  head_space s = false -> head_space (rstrip s) = false.
Proof.
  destruct s as [|d t]; [done|]. simpl. intros Hd.
  unfold rstrip. simpl. rewrite lstrip_app.
  destruct (forallb isspace (rev t)).
  - unfold lstrip. simpl. by rewrite Hd.
  - rewrite rev_app_distr. simpl. done.
Qed.

Lemma strip_head (s : text) : head_space (strip s) = false.
Proof. apply rstrip_head, lstrip_head. Qed.

Lemma strip_last (s : text) : last_space (strip s) = false.
Proof. apply rstrip_last. Qed.

Lemma strip_idem (s : text) : strip (strip s) = strip s.
Proof.
  unfold strip at 1. rewrite lstrip_fix by apply strip_head.
  apply rstrip_idem.
Qed.

Lemma strip_factor (s : text) : exists a b, s = a ++ strip s ++ b.
Proof.
  destruct (drop_while_suffix isspace s) as [a Ha].
  destruct (rstrip_prefix (lstrip s)) as [b Hb].
  exists a, b. unfold strip. by rewrite <- Hb.
Qed.

(** *** Properties kept by every factor of a text *)

Lemma match_url_app (s t : text) :
  match_at url_re s <> None -> match_at url_re (s ++ t) <> None.
Proof.
  destruct (match_at url_re s) eqn:E; [intros _|done].
  apply match_url_inv in E as (p & c & s' & Hp & -> & Hc & _).
  rewrite <- app_assoc. simpl. by apply match_url_ext.
Qed.

Lemma url_free_app_l (s t : text) :
  has_match url_re (s ++ t) = false -> has_match url_re s = false.
Proof.
  induction s as [|c s IH]; [done|]. simpl.
  destruct (match_at url_re (c :: s ++ t)) eqn:E; [done|].
  intros H. destruct (match_at url_re (c :: s)) eqn:E'; [|auto].
  exfalso. apply (match_url_app (c :: s) t); [by rewrite E'|done].
Qed.

Lemma url_free_strip (s : text) :
  has_match url_re s = false -> has_match url_re (strip s) = false.
Proof.
  destruct (strip_factor s) as (a & b & E). intros H. rewrite E in H.
  apply (has_match_suffix _ _ (strip s ++ b)) in H; [|by apply suffix_app_r].
  by apply url_free_app_l in H.
Qed.

Lemma head_space_app (a b : text) :
  a <> [] -> head_space (a ++ b) = head_space a.
Proof. by destruct a. Qed.

Lemma collapsed_app_l (a b : text) :
  collapsed (a ++ b) = true -> collapsed a = true.
Proof.
  induction a as [|c a IH]; [done|]. simpl.
  intros H. apply andb_true_iff in H as [H1 H2].
  rewrite IH by done. rewrite andb_true_r.
  destruct (isspace c); [|done].
  destruct a as [|d a]; [|done]. simpl in *.
  apply andb_true_iff in H1 as [-> _]. done.
Qed.

Lemma collapsed_app_r (a b : text) :
  collapsed (a ++ b) = true -> collapsed b = true.
Proof.
  induction a as [|c a IH]; [done|]. simpl.
  intros H. apply andb_true_iff in H as [_ H2]. auto.
Qed.

Lemma collapsed_strip (s : text) :
  collapsed s = true -> collapsed (strip s) = true.
Proof.
  destruct (strip_factor s) as (a & b & E). intros H. rewrite E in H.
  apply collapsed_app_r in H. by apply collapsed_app_l in H.
Qed.

(** *** The whitespace pass *)

Lemma sub_ws_collapsed (s : text) : collapsed (re_sub ws_re [SPACE] s) = true.
Proof.
  apply (re_sub_ind ws_re [SPACE] (fun _ out => collapsed out = true)).
  - done.
  - intros c t n E IH. cbn [app collapsed]. rewrite IH.
    rewrite match_ws_cons in E. destruct (isspace c) eqn:Hc; [|done].
    injection E as <-. rewrite drop_run.
    pose proof (drop_while_head isspace t) as H.
    destruct (drop_while isspace t) as [|d u]; [done|].
    rewrite re_sub_cons, match_ws_cons, H. simpl. by rewrite H.
  - intros c t Hc IH. cbn [collapsed]. rewrite IH.
    rewrite match_ws_cons in Hc.
    destruct (isspace c); [by destruct Hc|done].
Qed.

Lemma collapsed_sub_ws (s : text) :
  collapsed s = true -> re_sub ws_re [SPACE] s = s.
Proof.
  induction s as [|c s IH]; [done|]. simpl. intros H.
  apply andb_true_iff in H as [H1 H2].
  rewrite re_sub_cons, match_ws_cons.
  destruct (isspace c) eqn:Hc; [|by rewrite IH].
  apply andb_true_iff in H1 as [Hsp Hh]. apply N.eqb_eq in Hsp as ->.
  assert (run isspace s = 0%nat) as ->.
  { destruct s as [|d s]; [done|]. simpl in *. by destruct (isspace d). }
  rewrite drop_0. cbn [app]. by rewrite IH.
Qed.

Lemma collapsed_no_double (s : text) :
  collapsed s = true -> double_ws s = false.
Proof.
  induction s as [|c s IH]; [done|]. simpl. intros H.
  apply andb_true_iff in H as [H1 H2]. rewrite IH by done.
  destruct (isspace c); [|done].
  apply andb_true_iff in H1 as [_ Hh]. by destruct (head_space s).
Qed.

(** *** Angle brackets *)

Lemma lacks_app a (s t : text) : lacks a (s ++ t) = lacks a s && lacks a t.
Proof. apply forallb_app. Qed.

Lemma lacks_drop a n (s : text) : lacks a s = true -> lacks a (drop n s) = true.
Proof.
  intros H. rewrite <- (take_drop n s), lacks_app in H.
  by apply andb_true_iff in H as [_ H].
Qed.

Lemma lacks_sub r repl a (s : text) :
  lacks a repl = true -> lacks a s = true -> lacks a (re_sub r repl s) = true.
Proof.
  intros Hrepl.
  apply (re_sub_ind r repl
           (fun s out => lacks a s = true -> lacks a out = true)).
  - done.
  - intros c t n _ IH H. rewrite lacks_app, Hrepl. simpl.
    simpl in H. apply andb_true_iff in H as [_ H]. by apply IH, lacks_drop.
  - intros c t _ IH H. simpl in *.
    apply andb_true_iff in H as [-> H]. auto.
Qed.

Lemma nlg_app (s t : text) :
  no_lt_before_gt (s ++ t) = true ->
  no_lt_before_gt s = true /\ no_lt_before_gt t = true.
Proof.
  induction s as [|c s IH]; [done|]. simpl. intros H.
  apply andb_true_iff in H as [H1 H2]. apply IH in H2 as [-> ->].
  split; [|done]. rewrite andb_true_r.
  destruct (c =? LT)%N; [|done].
  rewrite lacks_app in H1. by apply andb_true_iff in H1 as [-> _].
Qed.

Lemma nlg_free_app (s t : text) :
  lacks LT s = true -> no_lt_before_gt (s ++ t) = no_lt_before_gt t.
Proof.
  induction s as [|c s IH]; [done|]. simpl. intros H.
  apply andb_true_iff in H as [H1 H2]. rewrite IH by done.
  apply negb_true_iff in H1. by rewrite H1.
Qed.

Lemma nlg_sub r repl (s : text) :
  lacks LT repl = true -> lacks GT repl = true ->
  no_lt_before_gt s = true -> no_lt_before_gt (re_sub r repl s) = true.
Proof.
  intros Hlt Hgt.
  apply (re_sub_ind r repl
           (fun s out => no_lt_before_gt s = true ->
                         no_lt_before_gt out = true)).
  - done.
  - intros c t n _ IH H. rewrite nlg_free_app by done. apply IH.
    change (c :: t) with ([c] ++ t) in H. apply nlg_app in H as [_ H].
    rewrite <- (take_drop n t) in H. by apply nlg_app in H as [_ H].
  - intros c t _ IH H. simpl in *.
    apply andb_true_iff in H as [H1 H2]. rewrite IH by done.
    rewrite andb_true_r. destruct (c =? LT)%N; [|done].
    by apply lacks_sub.
Qed.

Lemma nlg_strip (s : text) :
  no_lt_before_gt s = true -> no_lt_before_gt (strip s) = true.
Proof.
  destruct (strip_factor s) as (a & b & E). intros H. rewrite E in H.
  apply nlg_app in H as [_ H]. by apply nlg_app in H as [H _].
Qed.

Lemma nlg_tag_free (s : text) :
  no_lt_before_gt s = true -> has_match tag_re s = false.
Proof.
  induction s as [|c s IH]; [done|]. simpl. intros H.
  apply andb_true_iff in H as [H1 H2].
  destruct (match_at tag_re (c :: s)) eqn:E; [exfalso|auto].
  apply match_tag_inv in E as (s' & [= -> <-] & Hgt & _).
  simpl in H1. congruence.
Qed.

(** *** The normaliser *)

Lemma sub_tag_nlg (s : text) :
  no_lt_before_gt s = true -> re_sub tag_re [] s = s.
Proof. intros H. by apply re_sub_id, nlg_tag_free. Qed.

Lemma clean_str_nlg (x : text) :
  no_lt_before_gt x = true ->
  clean_str x = strip (re_sub ws_re [SPACE] (re_sub url_re [] x)).
Proof.
  intros H. unfold clean_str. cbv zeta.
  by rewrite sub_tag_nlg by by apply nlg_sub.
Qed.

Lemma clean_str_collapsed (x : text) : collapsed (clean_str x) = true.
Proof. apply collapsed_strip, sub_ws_collapsed. Qed.

Lemma clean_str_fix (y : text) :
  has_match url_re y = false -> has_match tag_re y = false ->
  collapsed y = true -> clean_str y = strip y.
Proof.
  intros Hu Ht Hc. unfold clean_str. cbv zeta.
  rewrite (re_sub_id url_re), (re_sub_id tag_re) by done.
  by rewrite collapsed_sub_ws.
Qed.

(** *** Lengths: a pass never lengthens, a removal shortens *)

Lemma re_sub_length_le r (s : text) : length (re_sub r [] s) <= length s.
Proof.
  apply (re_sub_ind r [] (fun s out => length out <= length s)).
  - done.
  - intros c t n _ IH. cbn [app length].
    pose proof (length_drop t n). lia.
  - intros c t _ IH. simpl. lia.
Qed.

Lemma re_sub_length_lt r (s : text) :
  (forall t : text, match_at r t <> Some 0%nat) ->
  has_match r s = true -> length (re_sub r [] s) < length s.
Proof.
  intros Hpos.
  apply (re_sub_ind r []
           (fun s out => has_match r s = true -> length out < length s)).
  - done.
  - intros c t n _ _ _. cbn [app length].
    pose proof (re_sub_length_le r (drop n t)).
    pose proof (length_drop t n). lia.
  - intros c t [Hc|Hc] IH H; [|by apply Hpos in Hc].
    cbn [has_match] in H. rewrite Hc in H. apply IH in H. simpl. lia.
Qed.

Lemma sub_ws_length_le (s : text) :
  length (re_sub ws_re [SPACE] s) <= length s.
Proof.
  apply (re_sub_ind ws_re [SPACE] (fun s out => length out <= length s)).
  - done.
  - intros c t n _ IH. cbn [app length].
    pose proof (length_drop t n). lia.
  - intros c t _ IH. simpl. lia.
Qed.

Lemma strip_length_le (s : text) : length (strip s) <= length s.
Proof.
  destruct (strip_factor s) as (a & b & E).
  rewrite E at 2. rewrite !length_app. lia.
Qed.

(** Cleaning a text that holds a URL or a tag shortens it. *)
Lemma clean_str_shorter (y : text) :
  has_match url_re y = true \/ has_match tag_re y = true ->
  length (clean_str y) < length y.
Proof.
  intros H. unfold clean_str. cbv zeta.
  pose proof (strip_length_le
                (re_sub ws_re [SPACE] (re_sub tag_re [] (re_sub url_re [] y)))).
  pose proof (sub_ws_length_le (re_sub tag_re [] (re_sub url_re [] y))).
  pose proof (re_sub_length_le tag_re (re_sub url_re [] y)).
  pose proof (re_sub_length_le url_re y).
  destruct (has_match url_re y) eqn:Hu.
  - pose proof (re_sub_length_lt url_re y) as Hlt.
    specialize (Hlt (fun t => match_at_pos url_re t (or_introl eq_refl)) Hu).
    lia.
  - destruct H as [H|H]; [done|].
    rewrite (re_sub_id url_re [] y Hu) in *.
    pose proof (re_sub_length_lt tag_re y) as Hlt.
    specialize (Hlt (fun t => match_at_pos tag_re t
                                (or_intror (or_introl eq_refl))) H).
    lia.
Qed.

Lemma lazy_dot_none (t : text) :
  lazy_star CDot (bt (RSet (CLit GT)) (fun _ => Some 0%nat)) t = None ->
  lacks NEWLINE t = true -> lacks GT t = true.
Proof.
  induction t as [|c t IH]; [done|]. simpl.
  destruct (c =? GT)%N; [done|]. simpl.
  intros H Hnl. apply andb_true_iff in Hnl as [Hc Hnl].
  rewrite Hc in H. destruct (lazy_star _ _ t); [done|]. auto.
Qed.

Lemma match_tag_none (t : text) :
  match_at tag_re (LT :: t) = None ->
  lacks NEWLINE t = true -> lacks GT t = true.
Proof.
  unfold match_at, tag_re. cbn [bt cmatch].
  rewrite N.eqb_refl. intros H. apply lazy_dot_none.
  by destruct (lazy_star _ _ t).
Qed.

(** Within one line the tag pass leaves no [<] with a [>] after it. *)
Lemma sub_tag_line (s : text) :
  lacks NEWLINE s = true -> no_lt_before_gt (re_sub tag_re [] s) = true.
Proof.
  apply (re_sub_ind tag_re []
           (fun s out => lacks NEWLINE s = true ->
                         no_lt_before_gt out = true)).
  - done.
  - intros c t n _ IH H. apply IH, lacks_drop.
    simpl in H. by apply andb_true_iff in H as [_ H].
  - intros c t Hc IH H. simpl in H. apply andb_true_iff in H as [_ H].
    simpl. rewrite IH by done. rewrite andb_true_r.
    destruct (N.eqb_spec c LT) as [->|]; [|done].
    apply lacks_sub; [done|].
    destruct Hc as [Hc|Hc]; [by apply match_tag_none|].
    by apply match_at_pos in Hc; auto.
Qed.

Lemma clean_str_tag_free (x : text) :
  lacks NEWLINE x = true \/ no_lt_before_gt x = true ->
  no_lt_before_gt (clean_str x) = true.
Proof.
  intros H. unfold clean_str. cbv zeta.
  apply nlg_strip, nlg_sub; [done..|].
  destruct H as [H|H].
  - by apply sub_tag_line, lacks_sub.
  - by do 2 (apply nlg_sub; [done..|]).
Qed.

(** Cleaning twice is cleaning once exactly where the first output holds
    no URL and no tag. *)
Lemma clean_str_idempotent_iff (x : text) :
  clean_str (clean_str x) = clean_str x <->
  has_match url_re (clean_str x) = false /\
  has_match tag_re (clean_str x) = false.
Proof.
  split.
  - intros E.
    destruct (has_match url_re (clean_str x)) eqn:Hu;
      [|destruct (has_match tag_re (clean_str x)) eqn:Ht; [|done]].
    + pose proof (clean_str_shorter (clean_str x) (or_introl Hu)) as H.
      rewrite E in H. lia.
    + pose proof (clean_str_shorter (clean_str x) (or_intror Ht)) as H.
      rewrite E in H. lia.
  - intros [Hu Ht].
    rewrite clean_str_fix; [|done..|apply clean_str_collapsed].
    unfold clean_str. cbv zeta. apply strip_idem.
Qed.

Lemma clean_str_idempotent (x : text) :
  no_lt_before_gt x = true ->
  clean_str (clean_str x) = clean_str x.
Proof.
  intros H. apply clean_str_idempotent_iff. split.
  - rewrite clean_str_nlg by done.
    apply url_free_strip, sub_ws_url_free, sub_url_free.
  - apply nlg_tag_free, clean_str_tag_free. by right.
Qed.

Lemma clean_str_shape (x : text) :
  let y := clean_str x in
  (double_ws y = false /\ head_space y = false /\ last_space y = false) /\
  (lacks NEWLINE x = true \/ no_lt_before_gt x = true ->
   has_match tag_re y = false) /\
  (no_lt_before_gt x = true -> has_match url_re y = false).
Proof.
  cbv zeta. split; [|split].
  - split; [apply collapsed_no_double, clean_str_collapsed|].
    split; [apply strip_head | apply strip_last].
  - intros H. by apply nlg_tag_free, clean_str_tag_free.
  - intros H. rewrite clean_str_nlg by done.
    apply url_free_strip, sub_ws_url_free, sub_url_free.
Qed.

End ReFacts.

(** ** The normaliser: what the specification says of it *)

Module NormalizerFacts.
Import Text Re Py Shape Ingest Samples ReFacts.

(** C1, as amended: cleaning twice gives what cleaning once gives exactly
    when the first output holds no URL and no tag; that is so on every text
    in which no [<] has a [>] after it. *)
Theorem clean_idempotent_when_output_clean (x : text) :
  let y := _clean_tweet_content (VStr x) in
  (_clean_tweet_content (VStr y) = y <->
   has_match url_re y = false /\ has_match tag_re y = false) /\
  (no_lt_before_gt x = true -> _clean_tweet_content (VStr y) = y).
Proof.
  split; [apply clean_str_idempotent_iff | apply clean_str_idempotent].
Qed.

Lemma clean_idempotent_witness :
  _clean_tweet_content (VStr (_clean_tweet_content (VStr cuba_tweet)))
  = _clean_tweet_content (VStr cuba_tweet).
Proof.
  apply (clean_idempotent_when_output_clean cuba_tweet).
  vm_compute. reflexivity.
Defined.

(** C1 fails as stated: a [<] and a [>] on two lines are no tag for the
    second pass, the third pass joins them into [< >], and cleaning that
    again removes it. *)
Lemma clean_not_idempotent :
  _clean_tweet_content (VStr broken_tag) = codepoints "< >" /\
  _clean_tweet_content (VStr (_clean_tweet_content (VStr broken_tag))) = [] /\
  _clean_tweet_content (VStr (_clean_tweet_content (VStr broken_tag)))
  <> _clean_tweet_content (VStr broken_tag).
Proof. vm_compute. repeat split; [reflexivity..|discriminate]. Qed.

(** C2, as amended: the output never has two whitespace characters in a
    row nor whitespace at either end; it holds no tag when the input has no
    newline or no [<] with a [>] after it, and no URL when the input has
    no [<] with a [>] after it. *)
Theorem clean_output_shape (x : text) :
  let y := _clean_tweet_content (VStr x) in
  (double_ws y = false /\ head_space y = false /\ last_space y = false) /\
  (lacks NEWLINE x = true \/ no_lt_before_gt x = true ->
   has_match tag_re y = false) /\
  (no_lt_before_gt x = true -> has_match url_re y = false).
Proof. apply clean_str_shape. Qed.

Lemma clean_output_shape_witness :
  let y := _clean_tweet_content (VStr cuba_tweet) in
  y = codepoints "Vaccine trials begin in Cuba" /\
  has_match tag_re y = false /\ has_match url_re y = false.
Proof.
  cbv zeta. split; [vm_compute; reflexivity|].
  destruct (clean_output_shape cuba_tweet) as (_ & Ht & Hu).
  split; [apply Ht; right | apply Hu]; vm_compute; reflexivity.
Defined.

(** C2 fails as stated: removing the tag of [ht<b>tp://x] leaves the URL
    [http://x] in the output. *)
Lemma clean_output_keeps_url :
  _clean_tweet_content (VStr split_url) = codepoints "http://x" /\
  has_match url_re (_clean_tweet_content (VStr split_url)) = true /\
  tidy (_clean_tweet_content (VStr split_url)) = false /\
  has_match tag_re (_clean_tweet_content (VStr broken_tag)) = true.
Proof. vm_compute. repeat split; reflexivity. Qed.

End NormalizerFacts.

(** ** The loader *)

Module EffectFacts.
Import Effects.

Lemma outcome_bind {E A B} (m : M E A) (f : A -> M E B) :
  outcome (bind m f) =
  match outcome m with
  | Ok a => outcome (f a)
  | Raise e => Raise e
  end.
Proof.
  destruct m as [ev [a|e]]; simpl; [|done]. by destruct (f a).
Qed.

Lemma events_bind {E A B} (m : M E A) (f : A -> M E B) :
  events (bind m f) =
  events m ++ match outcome m with
              | Ok a => events (f a)
              | Raise _ => []
              end.
Proof.
  destruct m as [ev [a|e]]; simpl; [|by rewrite app_nil_r]. by destruct (f a).
Qed.

Lemma outcome_try {E A} (m h : M E A) e :
  outcome (try_except m e h) =
  match outcome m with
  | Raise e' => if exn_eqb e' e then outcome h else Raise e'
  | r => r
  end.
Proof.
  destruct m as [ev [a|e']]; simpl; [done|].
  destruct (exn_eqb e' e); [|done]. by destruct h.
Qed.

Lemma events_try {E A} (m h : M E A) e :
  events (try_except m e h) =
  events m ++ match outcome m with
              | Raise e' => if exn_eqb e' e then events h else []
              | _ => []
              end.
Proof.
  destruct m as [ev [a|e']]; simpl; [by rewrite app_nil_r|].
  destruct (exn_eqb e' e); [|by rewrite app_nil_r]. by destruct h.
Qed.

Lemma outcome_embed {E E' A} (f : E -> E') (m : M E A) :
  outcome (embed f m) = outcome m.
Proof. done. Qed.

Lemma events_embed {E E' A} (f : E -> E') (m : M E A) :
  events (embed f m) = f <$> events m.
Proof. done. Qed.

Lemma events_emit {E B} (e : E) (k : unit -> M E B) :
  events (bind (emit e) k) = e :: events (k tt).
Proof. unfold bind, emit. by destruct (k tt). Qed.

Lemma outcome_emit {E B} (e : E) (k : unit -> M E B) :
  outcome (bind (emit e) k) = outcome (k tt).
Proof. unfold bind, emit. by destruct (k tt). Qed.

Lemma bind_ret_l {E A B} (a : A) (f : A -> M E B) : bind (ret a) f = f a.
Proof. unfold bind, ret. by destruct (f a). Qed.

Lemma bind_assoc {E A B C} (m : M E A) (f : A -> M E B) (g : B -> M E C) :
  bind (bind m f) g = bind m (fun a => bind (f a) g).
Proof.
  destruct m as [ev [a|e]]; simpl; [|done].
  destruct (f a) as [ev1 [b|e]]; simpl; [|done].
  destruct (g b) as [ev2 r]. by rewrite app_assoc.
Qed.

Lemma bind_ext {E A B} (m : M E A) (f g : A -> M E B) :
  (forall a, f a = g a) -> bind m f = bind m g.
Proof.
  intros H. destruct m as [ev [a|e]]; simpl; [|done]. by rewrite H.
Qed.

Lemma outcome_lift {E A B} (r : result A) (k : A -> M E B) :
  outcome (bind (lift r) k) =
  match r with Ok a => outcome (k a) | Raise e => Raise e end.
Proof. destruct r as [a|e]; [|done]. unfold bind, lift. by destruct (k a). Qed.

Lemma events_lift {E A B} (r : result A) (k : A -> M E B) :
  events (bind (lift r) k) =
  match r with Ok a => events (k a) | Raise e => [] end.
Proof. destruct r as [a|e]; [|done]. unfold bind, lift. by destruct (k a). Qed.

Lemma bind_lift_ok {E A B} (a : A) (k : A -> M E B) :
  bind (lift (Ok a)) k = k a.
Proof. unfold bind, lift. by destruct (k a). Qed.

End EffectFacts.

Module LoaderFacts.
Import Text Py Effects Pandas Ingest EffectFacts.

Lemma read_attempts_app (a b : list event) :
  read_attempts (a ++ b) = read_attempts a ++ read_attempts b.
Proof. unfold read_attempts. apply omap_app. Qed.

Lemma read_attempts_warnings (ws : list warning) :
  read_attempts (Warning <$> ws) = [].
Proof. by induction ws. Qed.

Lemma claim_is_target : "claim_dataset.tsv" ∈ target_files.
Proof. apply list_elem_of_here. Qed.

Lemma checkworthiness_is_target :
  "checkworthiness_dataset.tsv" ∈ target_files.
Proof. apply list_elem_of_further, list_elem_of_here. Qed.

Section LoaderProofs.
Context {file : Type}.
Variable read_csv :
  file -> encoding -> on_bad_lines -> M warning DataFrame.
Implicit Types (self : @ClaimIngestor file) (n : string).

(** The path of a target file ends with the name of the file, whatever
    the data directory. *)
Lemma joinpath_plain (p : Pathlib.Path) n :
  Pathlib.parse n = {| Pathlib.root := ""; Pathlib.parts := [n] |} ->
  Pathlib.name (Pathlib.joinpath p n) = n.
Proof.
  intros H. unfold Pathlib.joinpath. rewrite H. cbn.
  unfold Pathlib.name. cbn. by rewrite last_snoc.
Qed.

Lemma target_file_name self n :
  n ∈ target_files -> Pathlib.name (file_path self n) = n.
Proof.
  unfold target_files. intros H.
  repeat (apply elem_of_cons in H as [->|H]; [by apply joinpath_plain|]).
  by apply elem_of_nil in H.
Qed.

Lemma target_files_suffix self n :
  n ∈ target_files -> Pathlib.suffix (file_path self n) = ".tsv".
Proof.
  intros H. unfold Pathlib.suffix. rewrite target_file_name by done.
  unfold target_files in H.
  repeat (apply elem_of_cons in H as [->|H]; [done|]).
  by apply elem_of_nil in H.
Qed.

(** The reads of one file, by the outcome of the UTF-8 read. *)
Lemma read_source_attempts self n f :
  dir_files self !! n = Some f ->
  read_attempts (events (read_source read_csv self n)) =
  match outcome (read_csv f UTF8 BadWarn) with
  | Raise UnicodeDecodeError =>
      [(n, UTF8, BadWarn); (n, Latin1, default_on_bad_lines)]
  | _ => [(n, UTF8, BadWarn)]
  end.
Proof.
  intros Hf. unfold Ingest.read_source. rewrite Hf.
  rewrite events_try, outcome_bind, events_bind. cbn [emit outcome events fst snd].
  rewrite outcome_embed, events_embed.
  rewrite !read_attempts_app, read_attempts_warnings.
  destruct (outcome (read_csv f UTF8 BadWarn)) as [df|[]]; try done.
  change (exn_eqb UnicodeDecodeError UnicodeDecodeError) with true. cbv iota.
  rewrite !events_bind. cbn [emit outcome events fst snd].
  rewrite events_embed, !read_attempts_app, read_attempts_warnings.
  done.
Qed.

Lemma read_source_calls self n f :
  dir_files self !! n = Some f ->
  read_attempts (events (read_source read_csv self n))
  = read_calls read_csv self n.
Proof.
  intros Hf. rewrite (read_source_attempts self n f Hf).
  unfold read_calls. rewrite Hf.
  by destruct (outcome (read_csv f UTF8 BadWarn)) as [df|[]].
Qed.

Lemma read_source_outcome self n f :
  dir_files self !! n = Some f ->
  outcome (read_source read_csv self n) =
  match outcome (read_csv f UTF8 BadWarn) with
  | Raise UnicodeDecodeError =>
      outcome (read_csv f Latin1 default_on_bad_lines)
  | r => r
  end.
Proof.
  intros Hf. unfold Ingest.read_source. rewrite Hf.
  rewrite outcome_try, outcome_bind. cbn [emit outcome snd].
  rewrite outcome_embed.
  destruct (outcome (read_csv f UTF8 BadWarn)) as [df|[]]; try done.
Qed.

Lemma read_source_names self n :
  Forall (fun a => a.1.1 = n) (read_attempts (events (read_source read_csv self n))).
Proof.
  destruct (dir_files self !! n) as [f|] eqn:Hf.
  - rewrite (read_source_attempts _ _ f Hf).
    destruct (outcome _) as [df|[]]; repeat constructor.
  - unfold Ingest.read_source. rewrite Hf. constructor.
Qed.

(** One turn of the loop. *)
Lemma load_loop_cons self n rest acc :
  Pathlib.suffix (file_path self n) = ".tsv" ->
  load_loop read_csv self (n :: rest) acc =
  match dir_files self !! n with
  | None =>
      if bool_decide (n ∈ stat_fails self) then raise OSError
      else
        bind (emit (Log ERROR (codepoints "Missing file: " ++ path_str self n)))
             (fun _ => load_loop read_csv self rest acc)
  | Some _ =>
      bind (emit (Log INFO (codepoints "Reading " ++ codepoints n
                              ++ codepoints "...")))
        (fun _ =>
           bind (read_source read_csv self n)
             (fun df =>
                if Pandas.empty df then load_loop read_csv self rest acc
                else
                  let df' := set_column "source_filename"
                               (VStr (codepoints n)) df in
                  bind (emit (Log SUCCESS
                                (codepoints "Ingested "
                                   ++ codepoints (pretty (len df'))
                                   ++ codepoints " rows from "
                                   ++ codepoints n)))
                    (fun _ => load_loop read_csv self rest (acc ++ [df']))))
  end.
Proof.
  intros Hs. cbn [Ingest.load_loop]. unfold _validate_tsv, path_exists.
  rewrite Hs.
  destruct (dir_files self !! n) as [f|].
  - rewrite bind_lift_ok. cbn [negb].
    rewrite bool_decide_false by (intros H; by apply H).
    rewrite bind_ret_l. cbn [negb].
    apply bind_ext. intros _. apply bind_ext. intros df.
    by destruct (Pandas.empty df).
  - destruct (bool_decide (n ∈ stat_fails self)); [done|].
    rewrite bind_lift_ok. cbn [negb].
    rewrite bind_assoc. apply bind_ext. intros _. by rewrite bind_ret_l.
Qed.

Lemma set_column_shape (c : string) (v : value) (df : DataFrame) :
  Pandas.empty df = false ->
  Pandas.empty (set_column c v df) = false /\
  c ∈ columns (set_column c v df) /\
  Forall (fun r : gmap string value => r !! c = Some v)
    (rows (set_column c v df)).
Proof.
  intros E. split; [|split].
  - unfold Pandas.empty, set_column in *. simpl.
    destruct (columns df) as [|c0 cs]; [done|].
    destruct (rows df); [done|].
    by destruct (bool_decide _).
  - unfold set_column. cbn [columns]. case_bool_decide; [done|].
    apply elem_of_app. right. by left.
  - unfold set_column. simpl. apply Forall_fmap, Forall_true.
    intros r. simpl. apply lookup_insert_eq.
Qed.

Lemma kept_frame_shape self n df :
  kept_frame read_csv self n = Some df ->
  Pandas.empty df = false /\
  Forall (fun r : gmap string value =>
            r !! "source_filename" = Some (VStr (codepoints n))) (rows df).
Proof.
  unfold kept_frame. destruct (dir_files self !! n); [|done].
  destruct (read_outcome _ _) as [df0|]; [|done].
  destruct (Pandas.empty df0) eqn:E; [done|]. intros [= <-].
  by destruct (set_column_shape "source_filename" (VStr (codepoints n)) df0 E)
    as (? & _ & ?).
Qed.

Lemma kept_frame_column self n df :
  kept_frame read_csv self n = Some df -> "source_filename" ∈ columns df.
Proof.
  unfold kept_frame. destruct (dir_files self !! n); [|done].
  destruct (read_outcome _ _) as [df0|]; [|done].
  destruct (Pandas.empty df0) eqn:E; [done|]. intros [= <-].
  by destruct (set_column_shape "source_filename" (VStr (codepoints n)) df0 E)
    as (_ & ? & _).
Qed.

(** The reads and the frames of the loop, file by file. *)
Lemma load_loop_reads self names acc :
  Forall (fun n => Pathlib.suffix (file_path self n) = ".tsv") names ->
  read_attempts (events (load_loop read_csv self names acc))
    `prefix_of` flat_map (read_calls read_csv self) names /\
  forall dfs,
    outcome (load_loop read_csv self names acc) = Ok dfs ->
    read_attempts (events (load_loop read_csv self names acc))
      = flat_map (read_calls read_csv self) names /\
    dfs = acc ++ omap (kept_frame read_csv self) names.
Proof.
  intros Hs. revert acc. induction Hs as [|n names Hn _ IH]; intros acc.
  { split; [done|]. simpl. intros dfs [= <-]. by rewrite app_nil_r. }
  rewrite load_loop_cons by done. cbn [flat_map omap list_omap].
  unfold read_calls at 1 3, kept_frame at 1.
  destruct (dir_files self !! n) as [f|] eqn:Hf.
  - rewrite events_emit, outcome_emit, events_bind, outcome_bind.
    change (read_attempts (?e :: ?l)) with (read_attempts l).
    rewrite read_attempts_app, (read_source_attempts self n f Hf).
    rewrite (read_source_outcome self n f Hf).
    fold (read_outcome read_csv f).
    assert (match outcome (read_csv f UTF8 BadWarn) with
            | Raise UnicodeDecodeError =>
                [(n, UTF8, BadWarn); (n, Latin1, default_on_bad_lines)]
            | _ => [(n, UTF8, BadWarn)]
            end
            = (n, UTF8, BadWarn) ::
              match outcome (read_csv f UTF8 BadWarn) with
              | Raise UnicodeDecodeError => [(n, Latin1, default_on_bad_lines)]
              | _ => []
              end) as ->
      by (by destruct (outcome (read_csv f UTF8 BadWarn)) as [df|[]]).
    destruct (read_outcome read_csv f) as [df|e].
    + destruct (Pandas.empty df).
      * destruct (IH acc) as [Hp Hok]. split; [by apply prefix_app|].
        intros dfs H. destruct (Hok dfs H) as [-> ->]. done.
      * rewrite events_emit, outcome_emit.
        change (read_attempts (?e :: ?l)) with (read_attempts l).
        set (df' := set_column _ _ df).
        destruct (IH (acc ++ [df'])) as [Hp Hok]. split; [by apply prefix_app|].
        intros dfs H. destruct (Hok dfs H) as [-> ->].
        by rewrite <- app_assoc.
    + split; [|done]. rewrite app_nil_r. by apply prefix_app_r.
  - destruct (bool_decide (n ∈ stat_fails self)).
    + split; [apply prefix_nil|done].
    + rewrite events_emit, outcome_emit.
      change (read_attempts (?e :: ?l)) with (read_attempts l).
      apply IH.
Qed.

Lemma load_loop_frames self names acc dfs :
  Forall (fun n => Pathlib.suffix (file_path self n) = ".tsv") names ->
  outcome (load_loop read_csv self names acc) = Ok dfs ->
  dfs = acc ++ omap (kept_frame read_csv self) names.
Proof.
  intros Hs H. by destruct (load_loop_reads self names acc Hs) as [_ Hok];
    destruct (Hok dfs H).
Qed.

Lemma read_calls_names self n :
  Forall (fun a => a.1.1 = n) (read_calls read_csv self n).
Proof.
  unfold read_calls. destruct (dir_files self !! n) as [f|]; [|constructor].
  destruct (outcome _) as [df|[]]; repeat constructor.
Qed.

Lemma load_loop_attempts self names acc :
  Forall (fun n => Pathlib.suffix (file_path self n) = ".tsv") names ->
  Forall (fun a => a.1.1 ∈ names)
    (read_attempts (events (load_loop read_csv self names acc))).
Proof.
  intros Hs. destruct (load_loop_reads self names acc Hs) as [[k Hk] _].
  assert (Forall (fun a => a.1.1 ∈ names)
            (flat_map (read_calls read_csv self) names)) as H.
  { apply Forall_forall. intros a Ha.
    apply list_elem_of_In, in_flat_map in Ha as (n & Hn & Ha).
    apply list_elem_of_In in Hn, Ha.
    pose proof (read_calls_names self n) as Hc.
    rewrite Forall_forall in Hc. by rewrite (Hc a Ha). }
  rewrite Hk in H. by apply Forall_app in H as [H _].
Qed.

Lemma load_loop_agree self self' names acc :
  data_dir self' = data_dir self ->
  (forall n, n ∈ names ->
     dir_files self' !! n = dir_files self !! n /\
     (n ∈ stat_fails self' <-> n ∈ stat_fails self)) ->
  load_loop read_csv self' names acc = load_loop read_csv self names acc.
Proof.
  intros Hd. revert acc. induction names as [|n names IH]; intros acc Hf; [done|].
  assert (forall acc', load_loop read_csv self' names acc'
                       = load_loop read_csv self names acc') as IH'.
  { intros acc'. apply IH. intros m Hm. apply Hf. by right. }
  destruct (Hf n) as [Hfn Hsn]; [by left|].
  cbn [Ingest.load_loop].
  assert (_validate_tsv self' n = _validate_tsv self n) as ->.
  { unfold _validate_tsv, path_exists, path_str, file_path.
    rewrite Hd, Hfn. by rewrite (bool_decide_ext _ _ Hsn). }
  assert (read_source read_csv self' n = read_source read_csv self n) as ->.
  { unfold Ingest.read_source. by rewrite Hfn. }
  apply bind_ext. intros ok. destruct ok; cbn [negb]; [|apply IH'].
  apply bind_ext. intros _. apply bind_ext. intros df.
  destruct (Pandas.empty df); cbn [negb]; [apply IH'|].
  apply bind_ext. intros _. apply IH'.
Qed.

Lemma target_files_all_tsv self :
  Forall (fun n => Pathlib.suffix (file_path self n) = ".tsv") target_files.
Proof. apply Forall_forall. intros n. apply target_files_suffix. Qed.

(** C10: the loader reads the two files named in [target_files] and no
    other.  For each of the two names at which something is found,
    [read_csv] is called on what is found there, as UTF-8 and, if that
    raises [UnicodeDecodeError], as latin-1; a name at which nothing is
    found is not read.  These are all the calls of a load that returns,
    in this order, and a load that raises has made an initial part of
    them.
    The list returned holds, in the same order, the frame [read_csv] gave
    for each of the two files, tagged with the name of the file, but no
    frame that is empty.  What else the directory holds changes
    nothing. *)
Theorem load_source_data_reads_target_files self :
  let calls (n : string) : list (string * encoding * on_bad_lines) :=
    match dir_files self !! n with
    | None => []
    | Some f =>
        (n, UTF8, BadWarn) ::
        match outcome (read_csv f UTF8 BadWarn) with
        | Raise UnicodeDecodeError => [(n, Latin1, default_on_bad_lines)]
        | _ => []
        end
    end in
  let frame (n : string) : option DataFrame :=
    match dir_files self !! n with
    | None => None
    | Some f =>
        match
          match outcome (read_csv f UTF8 BadWarn) with
          | Raise UnicodeDecodeError =>
              outcome (read_csv f Latin1 default_on_bad_lines)
          | r => r
          end
        with
        | Ok df =>
            if Pandas.empty df then None
            else Some (set_column "source_filename" (VStr (codepoints n)) df)
        | Raise _ => None
        end
    end in
  read_attempts (events (load_source_data read_csv self))
    `prefix_of` calls "claim_dataset.tsv" ++ calls "checkworthiness_dataset.tsv" /\
  (forall dfs,
     outcome (load_source_data read_csv self) = Ok dfs ->
     read_attempts (events (load_source_data read_csv self))
       = calls "claim_dataset.tsv" ++ calls "checkworthiness_dataset.tsv" /\
     dfs = omap frame ["claim_dataset.tsv"; "checkworthiness_dataset.tsv"] /\
     Forall (fun df => Pandas.empty df = false /\
               exists n, n ∈ target_files /\
                 Forall (fun r : gmap string value =>
                           r !! "source_filename"
                           = Some (VStr (codepoints n))) (rows df)) dfs) /\
  (forall self',
     data_dir self' = data_dir self ->
     (forall n, n ∈ target_files ->
                dir_files self' !! n = dir_files self !! n /\
                (n ∈ stat_fails self' <-> n ∈ stat_fails self)) ->
     load_source_data read_csv self' = load_source_data read_csv self).
Proof.
  intros calls frame.
  destruct (load_loop_reads self target_files [] (target_files_all_tsv self))
    as [Hp Hok].
  cbn [flat_map target_files] in Hp, Hok. rewrite app_nil_r in Hp, Hok.
  split; [exact Hp|]. split.
  - intros dfs H. destruct (Hok dfs H) as [Hr Hd].
    rewrite app_nil_l in Hd. split; [exact Hr|]. split; [exact Hd|].
    subst dfs. apply Forall_forall. intros df Hdf.
    apply list_elem_of_omap in Hdf as (n & Hn & Hk).
    apply kept_frame_shape in Hk as [He Hr']. eauto.
  - intros self' Hd Hf. by apply load_loop_agree.
Qed.

(** What the loop makes of a file whose UTF-8 read failed. *)
Lemma load_loop_after_fallback self n f rest acc :
  Pathlib.suffix (file_path self n) = ".tsv" ->
  dir_files self !! n = Some f ->
  outcome (read_csv f UTF8 BadWarn) = Raise UnicodeDecodeError ->
  match outcome (read_csv f Latin1 default_on_bad_lines) with
  | Raise e => outcome (load_loop read_csv self (n :: rest) acc) = Raise e
  | Ok _ =>
      exists acc',
        outcome (load_loop read_csv self (n :: rest) acc)
        = outcome (load_loop read_csv self rest acc')
  end.
Proof.
  intros Hs Hf Hu.
  pose proof (read_source_outcome self n f Hf) as Ho. rewrite Hu in Ho.
  rewrite load_loop_cons by done.
  rewrite Hf, outcome_emit, outcome_bind, Ho.
  destruct (outcome (read_csv f Latin1 default_on_bad_lines)) as [df|e'];
    [|done].
  destruct (Pandas.empty df); [by eexists|].
  rewrite outcome_emit. by eexists.
Qed.

(** C7: a file whose UTF-8 read fails with [UnicodeDecodeError] is read
    again as latin-1, in that order, and the outcome for the file is the
    outcome of the latin-1 read: the load fails at this file only with
    what that second read raises, and goes on to the next file when the
    second read returns a frame. *)
Theorem utf8_failure_retries_latin1 self n f :
  n ∈ target_files ->
  dir_files self !! n = Some f ->
  outcome (read_csv f UTF8 BadWarn) = Raise UnicodeDecodeError ->
  read_attempts (events (read_source read_csv self n))
    = [(n, UTF8, BadWarn); (n, Latin1, default_on_bad_lines)] /\
  outcome (read_source read_csv self n)
    = outcome (read_csv f Latin1 default_on_bad_lines) /\
  (forall rest acc,
     match outcome (read_csv f Latin1 default_on_bad_lines) with
     | Raise e =>
         outcome (load_loop read_csv self (n :: rest) acc) = Raise e
     | Ok _ =>
         exists acc',
           outcome (load_loop read_csv self (n :: rest) acc)
           = outcome (load_loop read_csv self rest acc')
     end).
Proof.
  intros Hn Hf Hu.
  pose proof (read_source_attempts self n f Hf) as Ha.
  pose proof (read_source_outcome self n f Hf) as Ho.
  rewrite Hu in Ha, Ho. split; [done|]. split; [done|].
  intros rest acc.
  apply load_loop_after_fallback; [by apply target_files_suffix|done..].
Qed.

End LoaderProofs.
End LoaderFacts.

(** ** The merge of the frames *)

Module UnifyFacts.
Import Text Py Effects Pandas Ingest EffectFacts.

Lemma union_columns_elem (a b : list string) c :
  c ∈ union_columns a b <-> c ∈ a \/ c ∈ b.
Proof.
  unfold union_columns. rewrite elem_of_app, list_elem_of_filter.
  split; [intros [?|[? ?]]; auto|].
  intros [?|?]; [by left|]. destruct (decide (c ∈ a)); [by left|by right].
Qed.

Lemma foldl_union_elem (cols : list (list string)) acc c :
  c ∈ foldl union_columns acc cols <->
  c ∈ acc \/ exists l, l ∈ cols /\ c ∈ l.
Proof.
  revert acc. induction cols as [|l cols IH]; intros acc; simpl.
  - split; [by left|]. intros [?|(l & Hl & _)]; [done|].
    by apply elem_of_nil in Hl.
  - rewrite IH, union_columns_elem. split.
    + intros [[?|?]|(l' & ? & ?)]; [by left|right..].
      * exists l. split; [by left|done].
      * exists l'. split; [by right|done].
    + intros [?|(l' & Hl' & ?)]; [by left; left|].
      apply elem_of_cons in Hl' as [->|?]; [by left; right|].
      right. by exists l'.
Qed.

Lemma concat_columns_elem (dfs : list DataFrame) c :
  c ∈ foldl union_columns [] (columns <$> dfs) <->
  exists df, df ∈ dfs /\ c ∈ columns df.
Proof.
  rewrite foldl_union_elem. split.
  - intros [H|(l & Hl & Hc)]; [by apply elem_of_nil in H|].
    apply list_elem_of_fmap in Hl as (df & -> & Hdf). eauto.
  - intros (df & Hdf & Hc). right. exists (columns df).
    split; [|done]. apply list_elem_of_fmap. eauto.
Qed.

Lemma reindex_lookup (cs : list string) (r : gmap string value) c :
  reindex cs r !! c =
  if decide (c ∈ cs) then Some (default VNaN (r !! c)) else None.
Proof.
  unfold reindex. induction cs as [|a cs IH].
  - cbn [fmap list_fmap list_to_map foldr]. rewrite lookup_empty.
    case_decide as H; [by apply elem_of_nil in H|done].
  - cbn [fmap list_fmap]. rewrite list_to_map_cons.
    destruct (decide (a = c)) as [->|Hne].
    + rewrite lookup_insert_eq.
      destruct (decide (c ∈ c :: cs)) as [|H]; [done|].
      exfalso. apply H. by left.
    + rewrite lookup_insert_ne by done. rewrite IH.
      destruct (decide (c ∈ cs)) as [H1|H1];
        destruct (decide (c ∈ a :: cs)) as [H2|H2]; try done.
      * exfalso. apply H2. by right.
      * exfalso. apply elem_of_cons in H2 as [->|?]; done.
Qed.

Lemma unify_frame (dfs : list DataFrame) :
  outcome (process_and_unify dfs) =
  match dfs with
  | [] => Raise ValueError
  | _ =>
      let cs := foldl union_columns [] (columns <$> dfs) in
      if bool_decide ("tweet_text" ∈ cs) then
        Ok (apply_column "tweet_text"
              (fun v => VStr (_clean_tweet_content v))
              {| columns := cs;
                 rows := reindex cs <$> List.concat (rows <$> dfs) |})
      else Raise KeyError
  end.
Proof.
  unfold process_and_unify. rewrite outcome_emit, outcome_bind.
  destruct dfs as [|df dfs]; [done|].
  cbn [Pandas.concat lift outcome snd columns].
  destruct (bool_decide _); [|done]. by rewrite outcome_emit.
Qed.

Lemma unify_rows (dfs : list DataFrame) master :
  outcome (process_and_unify dfs) = Ok master ->
  len master = length (List.concat (rows <$> dfs)) /\
  (forall df c, df ∈ dfs -> c ∈ columns df -> c ∈ columns master) /\
  forall i (r : gmap string value),
    List.concat (rows <$> dfs) !! i = Some r ->
    exists r' : gmap string value,
      rows master !! i = Some r' /\
      r' !! "tweet_text"
      = Some (VStr (_clean_tweet_content (default VNaN (r !! "tweet_text")))) /\
      forall c, c ∈ columns master -> c <> "tweet_text" ->
                r' !! c = Some (default VNaN (r !! c)).
Proof.
  rewrite unify_frame. destruct dfs as [|df0 dfs]; [done|]. cbv zeta.
  set (cs := foldl union_columns [] (columns <$> df0 :: dfs)).
  set (all := List.concat (rows <$> df0 :: dfs)).
  destruct (bool_decide _) eqn:E; [|done]. intros [= <-].
  apply bool_decide_eq_true in E.
  unfold len, apply_column. cbn [rows columns]. split; [|split].
  - by rewrite !length_fmap.
  - intros df c Hdf Hc. apply concat_columns_elem. eauto.
  - intros i r Hr. eexists. split.
    { rewrite !list_lookup_fmap, Hr. reflexivity. }
    split.
    + rewrite lookup_insert_eq, reindex_lookup.
      by rewrite decide_True by done.
    + intros c Hc Hne. rewrite lookup_insert_ne by done.
      rewrite reindex_lookup. by rewrite decide_True by done.
Qed.

End UnifyFacts.
(** ** The ingestion pipeline on the model of pandas *)

Module IngestFacts.
Import Text Py Effects Pandas Ingest Samples EffectFacts LoaderFacts UnifyFacts.

(** Under ["warn"] no malformed line makes the read fail. *)
Lemma parse_lines_warn cs i ls :
  OpenQuote ∉ ls ->
  exists rs, outcome (parse_lines BadWarn cs i ls) = Ok rs.
Proof.
  revert i. induction ls as [|[r| |] ls IH]; intros i Hq; cbn [parse_lines].
  - by eexists.
  - rewrite outcome_bind. destruct (IH (S i)) as [rs ->]; [|by eexists].
    intros H. apply Hq. by right.
  - rewrite outcome_emit. apply IH. intros H. apply Hq. by right.
  - exfalso. apply Hq. by left.
Qed.

(** Under ["error"] a malformed line does. *)
Lemma parse_lines_error cs i ls :
  BadLine ∈ ls -> outcome (parse_lines BadError cs i ls) = Raise ParserError.
Proof.
  revert i. induction ls as [|[r| |] ls IH]; intros i H; cbn [parse_lines].
  - by apply elem_of_nil in H.
  - rewrite outcome_bind, IH; [done|].
    by apply elem_of_cons in H as [|].
  - done.
  - done.
Qed.

(** The primary read, [on_bad_lines="warn"], returns a frame from every
    file that decodes and has a header, and in which every quoted field
    is closed. *)
Lemma primary_read_skips_malformed_lines c t :
  as_utf8 c = Utf8 t -> header t <> [] -> OpenQuote ∉ lines t ->
  exists df, outcome (read_csv (Regular c) UTF8 BadWarn) = Ok df.
Proof.
  intros Hu Hh Hq. unfold read_csv. rewrite Hu. unfold read_table.
  destruct (header t) as [|c0 cs] eqn:E; [done|].
  rewrite outcome_bind.
  destruct (parse_lines_warn (c0 :: cs) 2 (lines t) Hq) as [rs ->]. by eexists.
Qed.

(** The fallback read, with the default policy, fails on every file with
    a malformed line, and the load fails with it. *)
Lemma fallback_read_raises_on_malformed_line c :
  header (as_latin1 c) <> [] -> BadLine ∈ lines (as_latin1 c) ->
  outcome (read_csv (Regular c) Latin1 default_on_bad_lines)
  = Raise ParserError.
Proof.
  intros Hh Hb. unfold read_csv, read_table.
  destruct (header (as_latin1 c)) as [|c0 cs] eqn:E; [done|].
  rewrite outcome_bind. unfold default_on_bad_lines.
  by rewrite parse_lines_error.
Qed.

Lemma load_raises_on_malformed_line (self : @ClaimIngestor file) c seen :
  dir_files self !! "claim_dataset.tsv" = Some (Regular c) ->
  as_utf8 c = NotUtf8 seen -> OpenQuote ∉ seen ->
  header (as_latin1 c) <> [] -> BadLine ∈ lines (as_latin1 c) ->
  outcome (load_source_data read_csv self) = Raise ParserError.
Proof.
  intros Hf Hu Hq Hh Hb.
  pose proof (load_loop_after_fallback read_csv self "claim_dataset.tsv"
                (Regular c) ["checkworthiness_dataset.tsv"] []) as H.
  rewrite fallback_read_raises_on_malformed_line in H by done.
  apply H; [by apply target_files_suffix, list_elem_of_here|done|].
  unfold read_csv. rewrite Hu, outcome_bind.
  by destruct (parse_lines_warn [] 2 seen Hq) as [rs ->].
Qed.

(** C6: the fallback read does not skip malformed rows.  The same table, a
    malformed line between two rows, loads from a UTF-8 file with the line
    dropped and a warning; from a file that is not valid UTF-8 the latin-1
    read raises [ParserError] and the whole load ends with it. *)
Theorem fallback_read_aborts_on_malformed_row :
  outcome (load_source_data read_csv (ingestor_with latin1_file))
    = Raise ParserError /\
  read_attempts (events (load_source_data read_csv (ingestor_with latin1_file)))
    = [("claim_dataset.tsv", UTF8, BadWarn);
       ("claim_dataset.tsv", Latin1, BadError)] /\
  (exists df,
     outcome (load_source_data read_csv (ingestor_with utf8_file)) = Ok [df] /\
     len df = 2%nat) /\
  Warning (ParserWarning 3)
    ∈ events (load_source_data read_csv (ingestor_with utf8_file)).
Proof.
  split; [by vm_compute|]. split; [by vm_compute|]. split.
  - eexists. split; [vm_compute; reflexivity|done].
  - vm_compute. do 2 right. left.
Qed.

(** C8: what is not a string is cleaned to the empty string, and cleaning
    makes no merge fail: frames of which one has the text column are
    merged, whatever their cells hold.  The frame returned has the records
    of the frames given, as many and in the same order, and the text of
    record [i] is a string: the cleaned text of record [i] of the input,
    which is the empty string where that record holds no string (NaN, when
    its frame has no text column). *)
Theorem tweet_text_is_string_after_unify :
  (forall v, is_str v = false -> _clean_tweet_content v = []) /\
  (forall dfs,
     (exists df, df ∈ dfs /\ "tweet_text" ∈ columns df) ->
     exists master, outcome (process_and_unify dfs) = Ok master) /\
  (forall dfs master,
     outcome (process_and_unify dfs) = Ok master ->
     length (rows master) = length (List.concat (rows <$> dfs)) /\
     forall i (r : gmap string value),
       List.concat (rows <$> dfs) !! i = Some r ->
       exists r' : gmap string value,
         rows master !! i = Some r' /\
         r' !! "tweet_text"
         = Some (VStr (_clean_tweet_content
                         (default VNaN (r !! "tweet_text")))) /\
         (is_str (default VNaN (r !! "tweet_text")) = false ->
          r' !! "tweet_text" = Some (VStr []))).
Proof.
  assert (forall v, is_str v = false -> _clean_tweet_content v = []) as Hns
    by (by intros []).
  split; [exact Hns|]. split.
  - intros dfs (df & Hdf & Hc). rewrite unify_frame.
    destruct dfs as [|df0 dfs]; [by apply elem_of_nil in Hdf|]. cbv zeta.
    rewrite bool_decide_true; [by eexists|].
    apply concat_columns_elem. eauto.
  - intros dfs master H.
    destruct (unify_rows dfs master H) as (Hlen & _ & Hrows).
    split; [exact Hlen|]. intros i r Hr.
    destruct (Hrows i r Hr) as (r' & Hr' & Ht & _).
    exists r'. split; [done|]. split; [done|].
    intros Hv. by rewrite Ht, (Hns _ Hv).
Qed.

Lemma tweet_text_is_string_witness :
  exists master r',
    outcome (process_and_unify two_frames) = Ok master /\
    rows master !! 1%nat = Some r' /\
    r' !! "tweet_text" = Some (VStr []).
Proof.
  destruct tweet_text_is_string_after_unify as (_ & Hret & Hrows).
  destruct (Hret two_frames) as [master Hm].
  { eexists. split; [apply list_elem_of_here|]. cbn. right. left. }
  destruct (Hrows two_frames master Hm) as [_ Hrow].
  destruct (Hrow 1%nat {[ "tweet_id" := VInt 2 ]} eq_refl)
    as (r' & Hr' & _ & He).
  exists master, r'. split; [exact Hm|]. split; [exact Hr'|].
  apply He. vm_compute. reflexivity.
Defined.

(** C7 and C10 on the sample directory. *)
Lemma utf8_failure_retries_latin1_witness :
  read_attempts
    (events (read_source read_csv (ingestor_with latin1_file)
               "claim_dataset.tsv"))
  = [("claim_dataset.tsv", UTF8, BadWarn);
     ("claim_dataset.tsv", Latin1, default_on_bad_lines)].
Proof.
  apply (utf8_failure_retries_latin1 read_csv (ingestor_with latin1_file)
           "claim_dataset.tsv" latin1_file).
  - apply list_elem_of_here.
  - vm_compute. reflexivity.
  - vm_compute. reflexivity.
Defined.

Lemma load_source_data_reads_target_files_witness :
  load_source_data read_csv
    {| data_dir := "data";
       dir_files := {[ "claim_dataset.tsv" := utf8_file;
                       "notes.tsv" := latin1_file ]};
       stat_fails := ∅ |}
  = load_source_data read_csv (ingestor_with utf8_file) /\
  read_attempts
    (events (load_source_data read_csv (ingestor_with utf8_file)))
  = [("claim_dataset.tsv", UTF8, BadWarn)].
Proof.
  destruct (load_source_data_reads_target_files read_csv
              (ingestor_with utf8_file)) as (_ & Hok & Hsame).
  split.
  - apply Hsame; [reflexivity|].
    intros n Hn. unfold target_files in Hn.
    apply elem_of_cons in Hn as [->|Hn]; [by vm_compute|].
    apply elem_of_cons in Hn as [->|Hn]; [by vm_compute|].
    by apply elem_of_nil in Hn.
  - destruct (Hok _ eq_refl) as [Hr _]. exact Hr.
Defined.

End IngestFacts.

(** ** Retrieval and prompt assembly *)

Module EngineFacts.
Import Text Py Effects Retriever Generator Samples EffectFacts.

(** C3, as amended: [search] checks nothing; whatever [k] is, zero and
    negative included, it sends one request with that [k] to the index and
    returns what the index answers. *)
Theorem search_forwards_every_k self (query : text) (k : Z) use_mmr :
  index_calls (events (search self query k use_mmr))
  = [if use_mmr then MMRSearch query k 20 (1 # 2)
     else SimilaritySearch query k] /\
  outcome (search self query k use_mmr)
  = (if use_mmr
     then max_marginal_relevance_search (vector_db self) query k 20 (1 # 2)
     else similarity_search (vector_db self) query k).
Proof. by destruct use_mmr. Qed.

(** C3 fails as stated: a search for [k = 0] reaches the index. *)
Lemma search_k0_not_rejected :
  (0 <= 0)%Z /\ ~ rejected (search sample_retriever [] 0 true).
Proof. split; [done|]. intros [_ H]. discriminate H. Qed.

(** C4, as amended: in diversity mode the pool asked for is 20 entries
    whatever [k] is, so it covers [k] exactly when [k <= 20]. *)
Theorem mmr_pool_is_twenty self (query : text) (k : Z) :
  index_calls (events (search self query k true))
  = [MMRSearch query k 20 (1 # 2)] /\
  (pool_covers (MMRSearch query k 20 (1 # 2)) = true <-> (k <= 20)%Z).
Proof. split; [done|]. simpl. apply Z.leb_le. Qed.

(** C4 fails as stated: for [k = 21] the pool asked for is smaller than
    [k]. *)
Lemma mmr_pool_below_k :
  index_calls (events (search sample_retriever [] 21 true))
  = [MMRSearch [] 21 20 (1 # 2)] /\
  pool_covers (MMRSearch [] 21 20 (1 # 2)) = false.
Proof. done. Qed.

Lemma join_lookup (sep : text) (pieces : list text) i (p : text) :
  pieces !! i = Some p ->
  exists pre post, join sep pieces = pre ++ p ++ post.
Proof.
  revert i. induction pieces as [|q qs IH]; intros i; [done|].
  destruct i as [|i]; simpl.
  - intros [= ->]. exists []. destruct qs; [exists []|eexists]; simpl.
    + by rewrite app_nil_r.
    + done.
  - intros H. destruct (IH i H) as (pre & post & E).
    destruct qs as [|q' qs]; [done|].
    rewrite E. exists (q ++ sep ++ pre), post. by rewrite <- !app_assoc.
Qed.

(** C9: the entry at index [i] of the list is written into the context as
    [Source [i+1]: text (Label: label)], the entries in list order. *)
Theorem context_numbers_sources (context : list Document) i doc :
  context !! i = Some doc ->
  let entry :=
    codepoints "Source [" ++ codepoints (pretty (S i)) ++ codepoints "]: "
      ++ page_content doc ++ codepoints " (Label: "
      ++ str (default VNone (metadata doc !! "class_label"))
      ++ codepoints ")" in
  context_text context = join [NEWLINE; NEWLINE] (imap source_line context) /\
  length (imap source_line context) = length context /\
  imap source_line context !! i = Some entry /\
  exists pre post, context_text context = pre ++ entry ++ post.
Proof.
  intros H entry.
  assert (imap source_line context !! i = Some entry) as He.
  { rewrite list_lookup_imap, H. simpl. unfold source_line, entry.
    by rewrite Nat.add_1_r. }
  split; [done|]. split; [apply length_imap|]. split; [done|].
  by apply join_lookup with i.
Qed.

Lemma context_numbers_sources_witness :
  context_text [labelled_doc; unlabelled_doc]
  = codepoints "Source [1]: Vaccine trials begin in Cuba (Label: A)"
      ++ [NEWLINE; NEWLINE]
      ++ codepoints "Source [2]: No relation to vaccines (Label: None)" /\
  exists pre post,
    context_text [labelled_doc; unlabelled_doc]
    = pre ++ codepoints "Source [2]: No relation to vaccines (Label: None)"
          ++ post.
Proof.
  split; [vm_compute; reflexivity|].
  apply (context_numbers_sources [labelled_doc; unlabelled_doc] 1
           unlabelled_doc).
  reflexivity.
Defined.

End EngineFacts.

(** ** More on the normaliser *)

Module CleanFacts.
Import Text Re Py Shape Ingest Words ReFacts.

Lemma re_sub_sublist r (s : text) : re_sub r [] s `sublist_of` s.
Proof.
  apply (re_sub_ind r [] (fun s out => out `sublist_of` s)).
  - done.
  - intros c t n _ IH. cbn [app]. apply sublist_cons.
    etrans; [exact IH|]. apply sublist_drop.
  - intros c t _ IH. by apply sublist_skip.
Qed.

Lemma filter_nonspace_run (t : text) :
  List.filter nonspace (drop (run isspace t) t) = List.filter nonspace t.
Proof.
  induction t as [|c t IH]; [done|]. cbn [run List.filter].
  unfold nonspace at 2. destruct (isspace c) eqn:E; [done|].
  cbn [drop List.filter]. unfold nonspace at 1. by rewrite E.
Qed.

Lemma sub_ws_nonspace (s : text) :
  List.filter nonspace (re_sub ws_re [SPACE] s) = List.filter nonspace s.
Proof.
  apply (re_sub_ind ws_re [SPACE]
           (fun s out => List.filter nonspace out = List.filter nonspace s)).
  - done.
  - intros c t n E IH. rewrite match_ws_cons in E.
    destruct (isspace c) eqn:Hc; [|done]. injection E as <-.
    cbn [app List.filter]. change (nonspace SPACE) with false. cbv iota.
    rewrite IH. unfold nonspace at 2. rewrite Hc. cbn [negb].
    apply filter_nonspace_run.
  - intros c t _ IH. cbn [List.filter]. by rewrite IH.
Qed.

Lemma filter_sublist_mono (p : char -> bool) (a b : text) :
  a `sublist_of` b -> List.filter p a `sublist_of` List.filter p b.
Proof.
  induction 1 as [|c a b _ IH|c a b _ IH]; cbn [List.filter].
  - done.
  - destruct (p c); [by apply sublist_skip|done].
  - destruct (p c); [by apply sublist_cons|done].
Qed.

Lemma filter_sublist (p : char -> bool) (a : text) :
  List.filter p a `sublist_of` a.
Proof.
  induction a as [|c a IH]; [done|]. cbn [List.filter].
  destruct (p c); [by apply sublist_skip|by apply sublist_cons].
Qed.

Lemma strip_sublist (s : text) : strip s `sublist_of` s.
Proof.
  destruct (strip_factor s) as (a & b & E). rewrite E at 2.
  apply sublist_inserts_l, sublist_inserts_r. done.
Qed.

(** X1: the normaliser never lengthens a text, and the non-whitespace
    characters of its output are characters of the input, in the order
    of the input. *)
Theorem clean_only_removes (x : text) :
  length (_clean_tweet_content (VStr x)) <= length x /\
  List.filter nonspace (_clean_tweet_content (VStr x)) `sublist_of` x.
Proof.
  cbn [_clean_tweet_content]. unfold clean_str. cbv zeta. split.
  - pose proof (strip_length_le
                  (re_sub ws_re [SPACE] (re_sub tag_re [] (re_sub url_re [] x)))).
    pose proof (sub_ws_length_le (re_sub tag_re [] (re_sub url_re [] x))).
    pose proof (re_sub_length_le tag_re (re_sub url_re [] x)).
    pose proof (re_sub_length_le url_re x). lia.
  - etrans; [apply filter_sublist_mono, strip_sublist|].
    rewrite sub_ws_nonspace.
    etrans; [apply filter_sublist|].
    etrans; apply re_sub_sublist.
Qed.

(** *** Whitespace normalisation is [" ".join(x.split())] *)

Lemma forallb_rev (p : char -> bool) (l : text) :
  forallb p (rev l) = forallb p l.
Proof.
  induction l as [|c l IH]; [done|]. simpl.
  rewrite forallb_app, IH. simpl. rewrite andb_true_r. apply andb_comm.
Qed.

Lemma rstrip_app (a b : text) :
  rstrip (a ++ b) = if forallb isspace b then rstrip a else a ++ rstrip b.
Proof.
  unfold rstrip. rewrite rev_app_distr, lstrip_app, forallb_rev.
  destruct (forallb isspace b); [done|].
  by rewrite rev_app_distr, rev_involutive.
Qed.

Lemma rstrip_nil_iff (b : text) :
  rstrip b = [] <-> forallb isspace b = true.
Proof.
  unfold rstrip. rewrite <- (forallb_rev isspace b).
  generalize (rev b) as t. intros t. split.
  - intros H. apply (f_equal (@rev _)) in H. rewrite rev_involutive in H.
    simpl in H. induction t as [|c t IH]; [done|].
    unfold lstrip in *. simpl in *. destruct (isspace c); [auto|done].
  - intros H. induction t as [|c t IH]; [done|].
    unfold lstrip in *. simpl in *.
    apply andb_true_iff in H as [-> H]. auto.
Qed.

Lemma rstrip_rev_fix (acc : text) :
  head_space acc = false -> rstrip (rev acc) = rev acc.
Proof.
  intros H. unfold rstrip. by rewrite rev_involutive, lstrip_fix.
Qed.

Lemma sub_ws_nonspace_cons c (s : text) :
  isspace c = false ->
  re_sub ws_re [SPACE] (c :: s) = c :: re_sub ws_re [SPACE] s.
Proof. intros H. by rewrite re_sub_cons, match_ws_cons, H. Qed.

Lemma sub_ws_space_cons c (s : text) :
  isspace c = true ->
  re_sub ws_re [SPACE] (c :: s) = SPACE :: re_sub ws_re [SPACE] (lstrip s).
Proof.
  intros H. rewrite re_sub_cons, match_ws_cons, H. by rewrite drop_run.
Qed.

Lemma sub_ws_app_nonspace (acc s : text) :
  forallb nonspace acc = true ->
  re_sub ws_re [SPACE] (acc ++ s) = acc ++ re_sub ws_re [SPACE] s.
Proof.
  induction acc as [|c acc IH]; [done|]. simpl. intros H.
  apply andb_true_iff in H as [Hc H]. apply negb_true_iff in Hc.
  by rewrite sub_ws_nonspace_cons, IH.
Qed.

Lemma lstrip_sub_ws (x : text) :
  lstrip (re_sub ws_re [SPACE] x) = re_sub ws_re [SPACE] (lstrip x).
Proof.
  destruct x as [|c x]; [done|].
  destruct (isspace c) eqn:Hc.
  - rewrite sub_ws_space_cons by done.
    unfold lstrip at 1 3. simpl. rewrite Hc.
    change (isspace SPACE) with true. cbv iota.
    fold (lstrip x). fold (lstrip (re_sub ws_re [SPACE] (lstrip x))).
    apply lstrip_fix.
    pose proof (lstrip_head x) as Hh.
    destruct (lstrip x) as [|d t]; [done|]. simpl in Hh.
    by rewrite sub_ws_nonspace_cons.
  - rewrite sub_ws_nonspace_cons by done.
    unfold lstrip. simpl. rewrite Hc. by rewrite sub_ws_nonspace_cons.
Qed.

Lemma split_go_nonempty (acc s : text) : Forall (fun w => w <> []) (split_go acc s).
Proof.
  revert acc. induction s as [|c s IH]; intros acc; simpl.
  - destruct acc as [|a acc]; constructor; [|constructor].
    simpl. intros H. by apply app_eq_nil in H as [_ H].
  - destruct (isspace c); [|apply IH].
    destruct acc as [|a acc]; [apply IH|]. constructor; [|apply IH].
    simpl. intros H. by apply app_eq_nil in H as [_ H].
Qed.

Lemma join_nil_inv sep (l : list text) :
  Forall (fun w => w <> []) l -> join sep l = [] -> l = [].
Proof.
  destruct 1 as [|p ps Hp _]; [done|]. simpl.
  destruct ps; [done|]. intros H. by apply app_eq_nil in H as [H _].
Qed.

Lemma join_cons sep (p : text) (ps : list text) :
  join sep (p :: ps) = match ps with [] => p | _ => p ++ sep ++ join sep ps end.
Proof. by destruct ps. Qed.

Lemma split_go_spec (s acc : text) :
  forallb nonspace acc = true ->
  join [SPACE] (split_go acc s) =
  rstrip (rev acc ++ match acc with
                     | [] => re_sub ws_re [SPACE] (lstrip s)
                     | _ => re_sub ws_re [SPACE] s
                     end).
Proof.
  revert acc. induction s as [|c s IH]; intros acc Hacc.
  - assert (head_space acc = false) as Hh.
    { destruct acc as [|a acc]; [done|]. simpl in *.
      apply andb_true_iff in Hacc as [Ha _]. by apply negb_true_iff in Ha. }
    simpl. destruct acc as [|a acc]; [done|].
    rewrite re_sub_nil, app_nil_r. by rewrite rstrip_rev_fix.
  - cbn [split_go]. destruct (isspace c) eqn:Hc.
    + destruct acc as [|a acc].
      * rewrite (IH []) by done. unfold lstrip at 2. simpl. by rewrite Hc.
      * assert (head_space (a :: acc) = false) as Hh.
        { simpl in *. apply andb_true_iff in Hacc as [Ha _].
          by apply negb_true_iff in Ha. }
        rewrite join_cons. pose proof (IH [] eq_refl) as E. simpl in E.
        rewrite sub_ws_space_cons by done.
        set (B := re_sub ws_re [SPACE] (lstrip s)) in *.
        rewrite rstrip_app. cbn [forallb]. change (isspace SPACE) with true.
        cbn [andb].
        change (SPACE :: B) with ([SPACE] ++ B). rewrite (rstrip_app [SPACE] B).
        destruct (forallb isspace B) eqn:HB.
        -- apply rstrip_nil_iff in HB. rewrite HB in E.
           apply join_nil_inv in E; [|apply split_go_nonempty]. rewrite E.
           by rewrite rstrip_rev_fix.
        -- destruct (split_go [] s) as [|w ws] eqn:Hs.
           { simpl in E. symmetry in E. apply rstrip_nil_iff in E. congruence. }
           rewrite E. done.
    + rewrite (IH (c :: acc)).
      2:{ simpl. unfold nonspace at 1. by rewrite Hc. }
      f_equal. cbn [rev]. rewrite <- app_assoc. cbn [app]. f_equal.
      destruct acc as [|a acc].
      * unfold lstrip. simpl. rewrite Hc. by rewrite sub_ws_nonspace_cons.
      * by rewrite sub_ws_nonspace_cons.
Qed.

Lemma strip_sub_ws_split (x : text) :
  strip (re_sub ws_re [SPACE] x) = join [SPACE] (split x).
Proof.
  unfold split. rewrite (split_go_spec x []) by done.
  unfold strip. by rewrite lstrip_sub_ws.
Qed.

(** X2: on a text in which the URL and the tag pattern match nowhere, the
    normaliser is [" ".join(x.split())]: the words of the text, one space
    between them. *)
Theorem clean_is_split_join (x : text) :
  has_match url_re x = false -> has_match tag_re x = false ->
  _clean_tweet_content (VStr x) = join [SPACE] (split x).
Proof.
  intros Hu Ht. cbn [_clean_tweet_content]. unfold clean_str. cbv zeta.
  rewrite (re_sub_id url_re), (re_sub_id tag_re) by done.
  apply strip_sub_ws_split.
Qed.

(** *** URL tokens between whitespace *)

Lemma run_app_space (s t : text) sp :
  isspace sp = true -> run nonspace (s ++ sp :: t) = run nonspace s.
Proof.
  intros Hsp. induction s as [|c s IH]; simpl.
  - unfold nonspace. by rewrite Hsp.
  - destruct (nonspace c); [by rewrite IH|done].
Qed.

Lemma tok_len_app_space (p s t : text) sp :
  forallb nonspace p = true -> isspace sp = true ->
  tok_len p (s ++ sp :: t) = tok_len p s.
Proof.
  intros Hp Hsp. unfold tok_len.
  assert (match strip_prefix p s with
          | Some s1 => strip_prefix p (s ++ sp :: t) = Some (s1 ++ sp :: t)
          | None => strip_prefix p (s ++ sp :: t) = None
          end) as H.
  { revert s. induction p as [|a p IH]; intros s; simpl; [done|].
    simpl in Hp. apply andb_true_iff in Hp as [Ha Hp].
    destruct s as [|c s]; simpl.
    - destruct (N.eqb_spec sp a) as [->|]; [|done].
      unfold nonspace in Ha. by rewrite Hsp in Ha.
    - destruct (c =? a)%N; [by apply IH|done]. }
  destruct (strip_prefix p s) as [[|c s1]|]; rewrite H; simpl.
  - unfold nonspace. by rewrite Hsp.
  - destruct (nonspace c); [|done]. by rewrite run_app_space.
  - done.
Qed.

Lemma match_url_app_space (s t : text) sp :
  isspace sp = true ->
  match_at url_re (s ++ sp :: t) = match_at url_re s.
Proof.
  intros Hsp. rewrite !match_url.
  by rewrite !tok_len_app_space by done.
Qed.

Lemma match_url_length (s : text) n :
  match_at url_re s = Some n -> n <= length s.
Proof.
  intros E. apply match_url_inv in E as (p & c & s' & _ & -> & _ & ->).
  rewrite length_app. simpl.
  assert (run nonspace s' <= length s') as H; [|lia].
  clear. induction s' as [|c s IH]; simpl; [done|].
  destruct (nonspace c); lia.
Qed.

(** The URL pass works on each side of a whitespace character apart. *)
Lemma sub_url_app_space (a t : text) sp :
  isspace sp = true ->
  re_sub url_re [] (a ++ sp :: t)
  = re_sub url_re [] a ++ sp :: re_sub url_re [] t.
Proof.
  intros Hsp.
  apply (re_sub_ind url_re []
           (fun a out => re_sub url_re [] (a ++ sp :: t)
                         = out ++ sp :: re_sub url_re [] t)).
  - cbn [app]. by rewrite re_sub_cons, match_url_space.
  - intros c s n E IH. cbn [app].
    change (c :: s ++ sp :: t) with ((c :: s) ++ sp :: t).
    rewrite <- IH. cbn [app].
    rewrite re_sub_cons.
    change (c :: s ++ sp :: t) with ((c :: s) ++ sp :: t).
    rewrite match_url_app_space, E by done. cbn [app].
    apply match_url_length in E. simpl in E.
    by rewrite drop_app_le by lia.
  - intros c s Hc IH. cbn [app]. rewrite re_sub_cons.
    change (c :: s ++ sp :: t) with ((c :: s) ++ sp :: t).
    rewrite match_url_app_space by done.
    destruct Hc as [Hc|Hc]; rewrite Hc; by rewrite IH.
Qed.

Lemma run_all (p : char -> bool) (s t : text) :
  forallb p s = true ->
  match t with [] => True | c :: _ => p c = false end ->
  run p (s ++ t) = length s.
Proof.
  intros Hs Ht. induction s as [|c s IH]; simpl.
  - destruct t as [|d t]; [done|]. simpl. by rewrite Ht.
  - simpl in Hs. apply andb_true_iff in Hs as [-> Hs]. by rewrite IH.
Qed.

(** A URL token followed by whitespace or by the end is matched whole. *)
Lemma match_url_token (u b : text) :
  url_token u -> ws_headed b ->
  match_at url_re (u ++ b) = Some (length u).
Proof.
  intros (p & rest & Hp & -> & Hne & Hrest) Hb.
  destruct rest as [|d rest]; [done|]. simpl in Hrest.
  apply andb_true_iff in Hrest as [Hd Hrest].
  assert (run nonspace (rest ++ b) = length rest) as Hrun.
  { apply run_all; [done|]. destruct b as [|c b]; [done|].
    simpl in Hb. unfold nonspace. by rewrite Hb. }
  rewrite match_url, <- app_assoc. cbn [app].
  destruct Hp as [-> | ->].
  - rewrite tok_len_app by done. rewrite Hrun, !length_app. done.
  - assert (tok_len (codepoints "http") (codepoints "www" ++ d :: rest ++ b)
            = None) as -> by done.
    rewrite tok_len_app by done. rewrite Hrun, !length_app. done.
Qed.

Lemma sub_url_token (u b : text) :
  url_token u -> ws_headed b ->
  re_sub url_re [] (u ++ b) = re_sub url_re [] b.
Proof.
  intros Hu Hb. pose proof (match_url_token u b Hu Hb) as E.
  destruct Hu as (p & rest & Hp & -> & Hne & _).
  destruct p as [|c p]; [by destruct Hp|].
  cbn [app] in *. rewrite re_sub_cons, E. cbn [length app].
  by rewrite drop_app_length.
Qed.

(** X3: a token that starts with [http] or [www] and stands between
    whitespace (or at an end of the text) is removed whole: the text
    cleans to what it cleans to without the token. *)
Theorem clean_drops_url_token (a u b : text) :
  ws_tailed a -> url_token u -> ws_headed b ->
  _clean_tweet_content (VStr (a ++ u ++ b))
  = _clean_tweet_content (VStr (a ++ b)).
Proof.
  intros Ha Hu Hb. cbn [_clean_tweet_content]. unfold clean_str. cbv zeta.
  assert (re_sub url_re [] (a ++ u ++ b) = re_sub url_re [] (a ++ b)) as ->;
    [|done].
  destruct Ha as [->|Ha]; [cbn [app]; by apply sub_url_token|].
  unfold last_space in Ha. destruct (rev a) as [|sp r] eqn:Hr; [done|].
  simpl in Ha. apply (f_equal (@rev _)) in Hr. rewrite rev_involutive in Hr.
  simpl in Hr. subst a. rewrite <- !app_assoc. cbn [app].
  rewrite !sub_url_app_space by done. by rewrite sub_url_token.
Qed.
End CleanFacts.

(** ** The check of a source file *)

Module ValidateFacts.
Import Text Py Effects Pandas Ingest EffectFacts LoaderFacts.







Section AnyFiles.
Context {file : Type}.
Implicit Types (self : @ClaimIngestor file) (name : string).

End AnyFiles.

End ValidateFacts.

(** ** More on the ingestion pipeline *)

Module PipelineFacts.
Import Text Py Effects Pandas Ingest Retriever IngestMain EffectFacts LoaderFacts UnifyFacts IngestFacts.

Section AnyReader.
Context {file : Type}.
Variable read_csv :
  file -> encoding -> on_bad_lines -> M warning DataFrame.
Implicit Types (self : @ClaimIngestor file) (n : string).

(** A missing file costs one log line. *)
Lemma load_loop_missing self n rest acc :
  Pathlib.suffix (file_path self n) = ".tsv" ->
  dir_files self !! n = None -> n ∉ stat_fails self ->
  load_loop read_csv self (n :: rest) acc =
  bind (emit (Log ERROR (codepoints "Missing file: " ++ path_str self n)))
       (fun _ => load_loop read_csv self rest acc).
Proof.
  intros Hs H Hn. rewrite load_loop_cons by done. rewrite H.
  by rewrite bool_decide_false.
Qed.

Lemma read_calls_present self n :
  Forall (fun a => a.1.1 = n /\ is_Some (dir_files self !! n))
    (read_calls read_csv self n).
Proof.
  unfold read_calls. destruct (dir_files self !! n) as [f|]; [|constructor].
  destruct (outcome _) as [df|[]]; repeat constructor; by eexists.
Qed.

Lemma load_loop_present_attempts self names acc :
  Forall (fun n => Pathlib.suffix (file_path self n) = ".tsv") names ->
  Forall (fun a => a.1.1 ∈ names /\ is_Some (dir_files self !! a.1.1))
    (read_attempts (events (load_loop read_csv self names acc))).
Proof.
  intros Hs. destruct (load_loop_reads read_csv self names acc Hs) as [[k Hk] _].
  assert (Forall (fun a => a.1.1 ∈ names /\ is_Some (dir_files self !! a.1.1))
            (flat_map (read_calls read_csv self) names)) as H.
  { apply Forall_forall. intros a Ha.
    apply list_elem_of_In, in_flat_map in Ha as (n & Hn & Ha).
    apply list_elem_of_In in Hn, Ha.
    pose proof (read_calls_present self n) as Hc.
    rewrite Forall_forall in Hc. destruct (Hc a Ha) as [-> ?]. done. }
  rewrite Hk in H. by apply Forall_app in H as [H _].
Qed.


(** Whether the loop raises does not depend on the frames it has. *)
Lemma load_loop_raise_acc self names acc acc' e :
  Forall (fun n => Pathlib.suffix (file_path self n) = ".tsv") names ->
  outcome (load_loop read_csv self names acc) = Raise e ->
  outcome (load_loop read_csv self names acc') = Raise e.
Proof.
  intros Hs. revert acc acc'.
  induction Hs as [|n names Hn _ IH]; intros acc acc'; [done|].
  rewrite !load_loop_cons by done.
  destruct (dir_files self !! n) as [f|].
  - rewrite !outcome_emit, !outcome_bind.
    destruct (outcome (read_source read_csv self n)) as [df|e']; [|done].
    destruct (Pandas.empty df); [apply IH|].
    rewrite !outcome_emit. apply IH.
  - destruct (bool_decide _); [done|]. rewrite !outcome_emit. apply IH.
Qed.

(** The loop raises at its first file, or passes it and raises later. *)
Lemma load_loop_raise_iff self n rest acc e :
  Forall (fun n => Pathlib.suffix (file_path self n) = ".tsv") (n :: rest) ->
  outcome (load_loop read_csv self (n :: rest) acc) = Raise e <->
  match dir_files self !! n with
  | None =>
      if bool_decide (n ∈ stat_fails self) then e = OSError
      else outcome (load_loop read_csv self rest acc) = Raise e
  | Some f =>
      match read_outcome read_csv f with
      | Raise e' => e = e'
      | Ok _ => outcome (load_loop read_csv self rest acc) = Raise e
      end
  end.
Proof.
  intros Hs. apply Forall_cons in Hs as [Hn Hs].
  rewrite load_loop_cons by done.
  destruct (dir_files self !! n) as [f|] eqn:Hf.
  - rewrite outcome_emit, outcome_bind.
    rewrite (read_source_outcome read_csv self n f Hf).
    fold (read_outcome read_csv f).
    destruct (read_outcome read_csv f) as [df|e'].
    + destruct (Pandas.empty df); [done|]. rewrite outcome_emit.
      split; by apply load_loop_raise_acc.
    + split; [by intros [= <-]|by intros ->].
  - destruct (bool_decide _).
    + split; [by intros [= <-]|by intros ->].
    + by rewrite outcome_emit.
Qed.

(** X5: a target file that is missing, nothing being found at its path
    without [os.stat] failing there, is never read and never makes the
    load fail: every call of [read_csv] is on a name at which something is
    found; with both files missing the load returns the empty list after
    two error lines, each with the path of the file; and the load returns
    whenever [os.stat] fails at neither path and [read_csv] makes a frame
    of each file that is found. *)
Theorem missing_files_are_skipped self :
  Forall (fun a => is_Some (dir_files self !! a.1.1))
    (read_attempts (events (load_source_data read_csv self))) /\
  ((forall n, n ∈ target_files ->
      dir_files self !! n = None /\ n ∉ stat_fails self) ->
   load_source_data read_csv self
   = ([Log ERROR (codepoints "Missing file: "
                    ++ path_str self "claim_dataset.tsv");
       Log ERROR (codepoints "Missing file: "
                    ++ path_str self "checkworthiness_dataset.tsv")],
      Ok [])) /\
  ((forall n, n ∈ target_files ->
      dir_files self !! n = None -> n ∉ stat_fails self) ->
   (forall n f, n ∈ target_files -> dir_files self !! n = Some f ->
      exists df,
        match outcome (read_csv f UTF8 BadWarn) with
        | Raise UnicodeDecodeError =>
            outcome (read_csv f Latin1 default_on_bad_lines)
        | r => r
        end = Ok df) ->
   exists dfs, outcome (load_source_data read_csv self) = Ok dfs).
Proof.
  split; [|split].
  - eapply Forall_impl;
      [apply load_loop_present_attempts, target_files_all_tsv|].
    by intros a [_ H].
  - intros H. unfold load_source_data, target_files.
    destruct (H "claim_dataset.tsv" claim_is_target) as [H1 H1'].
    destruct (H "checkworthiness_dataset.tsv" checkworthiness_is_target)
      as [H2 H2'].
    rewrite (load_loop_missing self "claim_dataset.tsv");
      [|apply target_files_suffix, claim_is_target|done..].
    rewrite (load_loop_missing self "checkworthiness_dataset.tsv");
      [|apply target_files_suffix, checkworthiness_is_target|done..].
    done.
  - intros Hmiss Hread.
    destruct (outcome (load_source_data read_csv self)) as [dfs|e] eqn:E;
      [by eexists|].
    exfalso. unfold load_source_data, target_files in E.
    apply load_loop_raise_iff in E; [|apply target_files_all_tsv].
    assert (forall n, n ∈ target_files ->
              match dir_files self !! n with
              | None => bool_decide (n ∈ stat_fails self) = false
              | Some f => exists df, read_outcome read_csv f = Ok df
              end) as Hn.
    { intros n Hn. destruct (dir_files self !! n) as [f|] eqn:Hf.
      - by apply (Hread n f).
      - apply bool_decide_eq_false. by apply Hmiss. }
    pose proof (Hn "claim_dataset.tsv" claim_is_target) as H1.
    pose proof (Hn "checkworthiness_dataset.tsv" checkworthiness_is_target)
      as H2.
    assert (outcome (load_loop read_csv self ["checkworthiness_dataset.tsv"] [])
            = Raise e) as E2.
    { destruct (dir_files self !! "claim_dataset.tsv") as [f|].
      - destruct H1 as [df Hdf]. by rewrite Hdf in E.
      - by rewrite H1 in E. }
    apply load_loop_raise_iff in E2;
      [|by eapply Forall_cons_1, target_files_all_tsv].
    destruct (dir_files self !! "checkworthiness_dataset.tsv") as [f|].
    + destruct H2 as [df Hdf]. by rewrite Hdf in E2.
    + by rewrite H2 in E2.
Qed.


End AnyReader.

(** *** [process_and_unify] *)

(** X7: [process_and_unify] fails on no frame at all with [ValueError], on
    frames none of which has the column [tweet_text] with [KeyError], and
    in no other case. *)
Theorem unify_fails_without_frames_or_text (dfs : list DataFrame) :
  (outcome (process_and_unify dfs) = Raise ValueError <-> dfs = []) /\
  (outcome (process_and_unify dfs) = Raise KeyError <->
   dfs <> [] /\ forall df, df ∈ dfs -> "tweet_text" ∉ columns df) /\
  ((exists df, df ∈ dfs /\ "tweet_text" ∈ columns df) ->
   exists master, outcome (process_and_unify dfs) = Ok master).
Proof.
  rewrite unify_frame.
  destruct dfs as [|df0 dfs]; cbv zeta.
  { split; [done|]. split; [split; [done|by intros [? _]]|].
    intros (df & H & _). by apply elem_of_nil in H. }
  destruct (bool_decide _) eqn:E.
  - apply bool_decide_eq_true in E. apply concat_columns_elem in E.
    split; [done|]. split; [|by eexists].
    split; [done|]. intros [_ H]. destruct E as (df & Hdf & Hc).
    by apply H in Hc.
  - apply bool_decide_eq_false in E.
    split; [done|]. split.
    + split; [|done]. intros _. split; [done|].
      intros df Hdf Hc. apply E, concat_columns_elem. eauto.
    + intros H. by apply concat_columns_elem in H.
Qed.

(** X8: the frame [process_and_unify] returns has the records of the
    frames given, in order and as many, under the union of their columns:
    record [i] with its text cleaned, and in every other column the string
    it holds, if it holds one, or NaN where it has no value for the
    column. *)
Theorem unify_keeps_records (dfs : list DataFrame) master :
  outcome (process_and_unify dfs) = Ok master ->
  len master = length (List.concat (rows <$> dfs)) /\
  (forall c, c ∈ columns master <-> exists df, df ∈ dfs /\ c ∈ columns df) /\
  forall i (r : gmap string value),
    List.concat (rows <$> dfs) !! i = Some r ->
    exists r' : gmap string value,
      rows master !! i = Some r' /\
      r' !! "tweet_text"
      = Some (VStr (_clean_tweet_content (default VNaN (r !! "tweet_text")))) /\
      forall c, c ∈ columns master -> c <> "tweet_text" ->
        (forall s, r !! c = Some (VStr s) -> r' !! c = Some (VStr s)) /\
        (r !! c = None -> r' !! c = Some VNaN).
Proof.
  intros H. destruct (unify_rows dfs master H) as (Hlen & Hcols & Hrows).
  split; [done|]. split.
  - intros c. rewrite <- concat_columns_elem.
    rewrite unify_frame in H. destruct dfs as [|df0 dfs]; [done|].
    cbv zeta in H. destruct (bool_decide _); [|done].
    by injection H as <-.
  - intros i r Hr. destruct (Hrows i r Hr) as (r' & Hr' & Ht & Ho).
    exists r'. split; [done|]. split; [done|].
    intros c Hc Hne. rewrite (Ho c Hc Hne). split.
    + by intros s ->.
    + by intros ->.
Qed.

(** *** The script *)

Lemma print_matches_outcome i (ms : list Document) :
  outcome (print_matches i ms) =
  if forallb keyed ms then Ok tt else Raise KeyError.
Proof.
  revert i. induction ms as [|m ms IH]; intros i; [done|].
  cbn [print_matches forallb]. unfold keyed at 1.
  rewrite !outcome_emit, outcome_lift. unfold getitem.
  destruct (metadata m !! "source_filename") as [v|]; [|done].
  rewrite outcome_lift.
  destruct (metadata m !! "tweet_id") as [w|]; [|done].
  rewrite outcome_emit, IH.
  rewrite !bool_decide_true by by eexists. done.
Qed.

Lemma print_matches_lines i (ms : list Document) :
  forallb keyed ms = true ->
  length (printed (events (print_matches i ms))) = 3 * length ms.
Proof.
  revert i. induction ms as [|m ms IH]; intros i; [done|].
  cbn [print_matches forallb]. unfold keyed at 1.
  intros H. apply andb_true_iff in H as [Hk H].
  apply andb_true_iff in Hk as [H1 H2].
  apply bool_decide_eq_true in H1 as [v Hv].
  apply bool_decide_eq_true in H2 as [w Hw].
  rewrite !events_emit, events_lift. unfold getitem. rewrite Hv.
  rewrite events_lift, Hw, events_emit.
  cbn [printed omap list_omap length]. fold (printed (events (print_matches (S i) ms))).
  rewrite (IH (S i) H). lia.
Qed.

Section ScriptProofs.
Context {file' : Type}.
Variable rc : file' -> encoding -> on_bad_lines -> M warning DataFrame.
Variable build : DataFrame -> M event VectorStore.
Implicit Types (self : @ClaimIngestor file').

(** Every record of the frame handed on is cleaned and tagged. *)
Lemma unified_input_rows self u :
  outcome (unified_input rc self) = Ok (Some u) ->
  Forall (fun r : gmap string value =>
            (exists s, r !! "tweet_text" = Some (VStr s)) /\
            exists n, n ∈ target_files /\
              r !! "source_filename" = Some (VStr (codepoints n)))
    (rows u).
Proof.
  unfold unified_input. rewrite outcome_bind.
  destruct (outcome (load_source_data rc self)) as [dfs|e] eqn:El; [|done].
  destruct dfs as [|df0 dfs]; [done|].
  rewrite outcome_bind.
  destruct (outcome (process_and_unify (df0 :: dfs))) as [m|e] eqn:Eu; [|done].
  intros [= <-].
  apply load_loop_frames in El; [|apply target_files_all_tsv].
  rewrite app_nil_l in El.
  destruct (unify_rows _ _ Eu) as (Hlen & Hcols & Hrows).
  apply Forall_lookup_2. intros i r' Hr'.
  assert (i < length (List.concat (rows <$> df0 :: dfs))) as Hi.
  { rewrite <- Hlen. unfold len. by apply lookup_lt_Some in Hr'. }
  apply lookup_lt_is_Some_2 in Hi as [r Hr].
  destruct (Hrows i r Hr) as (r2 & Hr2 & Htext & Hother).
  rewrite Hr' in Hr2. injection Hr2 as <-.
  split; [by eexists|].
  assert (r ∈ List.concat (rows <$> df0 :: dfs)) as Hin
    by (by eapply list_elem_of_lookup_2).
  apply list_elem_of_In, in_concat in Hin as (rs & Hrs & Hin).
  apply list_elem_of_In, list_elem_of_fmap in Hrs as (df & -> & Hdf).
  apply list_elem_of_In in Hin.
  pose proof Hdf as Hdf0.
  rewrite El in Hdf. apply list_elem_of_omap in Hdf as (n & Hn & Hk).
  pose proof (kept_frame_column rc self n df Hk) as Hc.
  apply kept_frame_shape in Hk as [_ Htag].
  rewrite Forall_forall in Htag. specialize (Htag r Hin).
  exists n. split; [done|].
  rewrite Hother; [by rewrite Htag|by apply (Hcols df)|done].
Qed.

Lemma printed_app (a b : list output) :
  printed (a ++ b) = printed a ++ printed b.
Proof. apply omap_app. Qed.

Lemma printed_events (evs : list event) : printed (Ev <$> evs) = [].
Proof. by induction evs. Qed.

Lemma bind_pair {E A B} (ev : list E) (a : A) (k : A -> M E B) :
  bind (ev, Ok a) k = (ev ++ events (k a), outcome (k a)).
Proof. unfold bind. by destruct (k a). Qed.

Lemma bind_pair_raise {E A B} (ev : list E) e (k : A -> M E B) :
  bind ((ev, Raise e) : M E A) k = (ev, Raise e).
Proof. done. Qed.

(** X9: the script builds the index from cleaned and tagged records only:
    if it reaches [build_vector_index], it calls it on a frame in which
    every record has a string as text and the name of a target file as
    [source_filename]; if no table was loaded it ends without building,
    printing or searching; and what the load or the merge raises ends
    the script before anything is built. *)
Theorem script_builds_from_clean_tagged_records self :
  match outcome (unified_input rc self) with
  | Ok (Some u) =>
      Forall (fun r : gmap string value =>
                (exists s, r !! "tweet_text" = Some (VStr s)) /\
                exists n, n ∈ target_files /\
                  r !! "source_filename" = Some (VStr (codepoints n)))
        (rows u) /\
      exists rest,
        events (main rc build self)
        = (Ev <$> events (unified_input rc self))
            ++ (Ev <$> events (build u)) ++ rest
  | Ok None =>
      main rc build self = (Ev <$> events (unified_input rc self), Ok tt)
  | Raise e =>
      main rc build self = (Ev <$> events (unified_input rc self), Raise e)
  end.
Proof.
  pose proof (unified_input_rows self) as Hrows. revert Hrows.
  unfold main, unified_input, embed.
  destruct (load_source_data rc self) as [ev1 [[|df0 dfs]|e]];
    cbn [fst snd].
  - intros _. rewrite !bind_pair. cbn [ret events outcome fst snd].
    by rewrite !app_nil_r.
  - rewrite !bind_pair. cbn [fst snd].
    destruct (process_and_unify (df0 :: dfs)) as [ev2 [u|e]]; cbn [fst snd].
    + rewrite !bind_pair.
      cbn [ret events outcome fst snd]. intros Hrows.
      split; [by apply Hrows|].
      rewrite events_bind. cbn [events fst snd].
      rewrite app_nil_r, fmap_app. eexists.
      rewrite <- app_assoc. do 3 f_equal.
    + rewrite !bind_pair_raise.
      cbn [events outcome fst snd]. intros _. by rewrite fmap_app.
  - intros _. by rewrite !bind_pair_raise.
Qed.

(** X10: once the index is built the script asks it for two matches and
    prints three lines for each after three lines of banner; it ends with
    [KeyError] exactly when one of the matches has no [source_filename]
    or no [tweet_id] in its metadata. *)
Theorem script_sanity_check_needs_keys self dfs u vs ms :
  outcome (load_source_data rc self) = Ok dfs -> dfs <> [] ->
  outcome (process_and_unify dfs) = Ok u ->
  outcome (build u) = Ok vs ->
  similarity_search vs test_query 2 = Ok ms ->
  if forallb keyed ms
  then outcome (main rc build self) = Ok tt /\
       length (printed (events (main rc build self))) = 3 + 3 * length ms
  else outcome (main rc build self) = Raise KeyError.
Proof.
  unfold main, embed.
  destruct (load_source_data rc self) as [ev1 r1]. cbn [outcome fst snd].
  intros -> Hne. destruct dfs as [|df0 dfs]; [done|].
  rewrite bind_pair. cbn [fst snd].
  destruct (process_and_unify (df0 :: dfs)) as [ev2 r2]. cbn [outcome fst snd].
  intros ->. rewrite bind_pair. cbn [fst snd].
  destruct (build u) as [ev3 r3]. cbn [outcome events fst snd].
  intros -> Hs. rewrite bind_pair. cbn [outcome events fst snd].
  rewrite !outcome_emit, outcome_lift, !events_emit, events_lift, Hs.
  rewrite print_matches_outcome.
  destruct (forallb keyed ms) eqn:Hk; [|done]. split; [done|].
  rewrite !printed_app, !printed_events. cbn [app printed omap list_omap length].
  fold (printed (events (print_matches 0 ms))).
  by rewrite print_matches_lines.
Qed.

End ScriptProofs.

End PipelineFacts.

(** ** The generator, the endpoint and the page *)

Module ServiceFacts.
Import Text Py Effects Retriever Generator GeneratorInit Words Api Dashboard EffectFacts.

(** *** [ClaimGenerator.__init__] *)

(** X11: the generator is built exactly when [GROQ_API_KEY] is set and not
    empty, and then with temperature 0, the model asked for and that key;
    otherwise [ValueError] is raised after one error line. *)
Theorem generator_needs_api_key (environ : gmap string string) model :
  (outcome (__init__ environ model) = Raise ValueError <->
   environ !! "GROQ_API_KEY" = None \/ environ !! "GROQ_API_KEY" = Some ""%string) /\
  (forall key, environ !! "GROQ_API_KEY" = Some key -> key <> ""%string ->
     outcome (__init__ environ model)
     = Ok {| temperature := 0; model_name := model; groq_api_key := key |}) /\
  (forall e, outcome (__init__ environ model) = Raise e ->
     events (__init__ environ model)
     = [Log ERROR (codepoints "GROQ_API_KEY not found in environment.")]).
Proof.
  unfold __init__.
  destruct (environ !! "GROQ_API_KEY") as [[|a key]|]; cbn.
  - split; [split; auto|]. split; [by intros key [= <-]|done].
  - split; [split; [done|by intros [|]]|]. split; [by intros ? [= <-]|done].
  - split; [split; auto|]. split; [done|done].
Qed.

(** *** The context *)

Lemma join_snoc sep (l : list text) (p : text) :
  join sep (l ++ [p]) =
  match l with [] => p | _ => join sep l ++ sep ++ p end.
Proof.
  induction l as [|q l IH]; [done|].
  cbn [app]. destruct l as [|q' l]; [done|].
  change (join sep (q :: (q' :: l) ++ [p]))
    with (q ++ sep ++ join sep ((q' :: l) ++ [p])).
  rewrite IH. change (join sep (q :: q' :: l)) with (q ++ sep ++ join sep (q' :: l)).
  by rewrite <- !app_assoc.
Qed.

(** X12: no entry, no context; and one more entry at the end of the list
    leaves the text of the earlier entries as it is and adds the new
    entry, numbered one past them, after a blank line. *)
Theorem context_grows_at_the_end (context : list Document) doc :
  context_text [] = [] /\
  context_text (context ++ [doc]) =
  match context with
  | [] => source_line 0 doc
  | _ => context_text context ++ [NEWLINE; NEWLINE]
           ++ source_line (length context) doc
  end.
Proof.
  split; [done|]. unfold context_text.
  rewrite imap_app. cbn [imap]. rewrite join_snoc, Nat.add_0_r.
  destruct context as [|d ctx]; done.
Qed.

Lemma codepoints_inj (s t : string) : codepoints s = codepoints t -> s = t.
Proof.
  unfold codepoints. intros H.
  assert (list_ascii_of_string s = list_ascii_of_string t) as E.
  { revert H. generalize (list_ascii_of_string s) (list_ascii_of_string t).
    intros l1. induction l1 as [|a l1 IH]; intros [|b l2]; try done.
    cbn [map]. intros [= Hab Hl]. f_equal; [|by apply IH].
    rewrite <- (ascii_N_embedding a), <- (ascii_N_embedding b). by rewrite Hab. }
  rewrite <- (string_of_list_ascii_of_string s),
          <- (string_of_list_ascii_of_string t). by rewrite E.
Qed.

Lemma pretty_N_go_no_bracket (x : N) (s : string) :
  RBRACKET ∉ list_ascii_of_string s ->
  RBRACKET ∉ list_ascii_of_string (pretty_N_go x s).
Proof.
  revert s. induction (N.lt_wf_0 x) as [x _ IH]; intros s Hs.
  assert (x = 0 \/ 0 < x)%N as [->|Hx] by lia.
  - by rewrite pretty_N_go_0.
  - rewrite pretty_N_go_step by done. apply IH.
    { by apply N.div_lt. }
    cbn [list_ascii_of_string]. intros H.
    apply elem_of_cons in H as [H|H]; [|done].
    revert H. unfold pretty_N_char, RBRACKET. by repeat case_match.
Qed.

Lemma pretty_nat_no_bracket (n : nat) :
  93%N ∉ codepoints (pretty n).
Proof.
  unfold codepoints. intros H.
  apply list_elem_of_fmap in H as (a & Ha & Hin).
  assert (a = RBRACKET) as ->.
  { rewrite <- (ascii_N_embedding a), <- Ha. done. }
  revert Hin. unfold pretty, pretty_nat, pretty, pretty_N.
  case_decide.
  - cbn. intros H'. apply elem_of_cons in H' as [H'|H']; [done|].
    by apply elem_of_nil in H'.
  - apply pretty_N_go_no_bracket. cbn. apply not_elem_of_nil.
Qed.

Lemma app_sep_inj (c : char) (a b x y : text) :
  c ∉ a -> c ∉ b -> a ++ c :: x = b ++ c :: y -> a = b.
Proof.
  revert b. induction a as [|d a IH]; intros [|e b] Ha Hb; cbn [app].
  - done.
  - intros [= -> _]. exfalso. apply Hb. by left.
  - intros [= -> _]. exfalso. apply Ha. by left.
  - intros [= -> H]. f_equal. apply IH with (b := b); [| |done].
    + intros ?. apply Ha. by right.
    + intros ?. apply Hb. by right.
Qed.

(** X13: the number an entry of the context opens with tells its place in
    the list: the entry for position [j] opens with [Source [i+1]: ] for
    [i = j] and for no other [i]. *)
Theorem source_number_identifies_entry i j doc :
  source_header i `prefix_of` source_line j doc <-> i = j.
Proof.
  split.
  - intros [k Hk]. unfold source_header, source_line in Hk.
    rewrite <- !app_assoc in Hk. apply app_inv_head in Hk.
    change (codepoints "]: ") with (93%N :: codepoints ": ") in Hk.
    cbn [app] in Hk. symmetry in Hk.
    apply app_sep_inj in Hk; [|apply pretty_nat_no_bracket..].
    apply codepoints_inj, (inj pretty) in Hk. lia.
  - intros ->. unfold source_header, source_line.
    eexists. by rewrite <- !app_assoc.
Qed.

(** *** The endpoint *)

Section EndpointProofs.
Variable searcher : ClaimRetriever.
Variable talker : text -> list Document -> M event text.
Variable exn_str : exn -> text.

Lemma answer_question_outcome request :
  outcome (answer_question searcher talker request) =
  match outcome (search searcher (query request) (count request) true) with
  | Ok docs =>
      match outcome (talker (query request) docs) with
      | Ok a =>
          Ok {| answer := a;
                sources := (fun doc => {| text_ := page_content doc;
                                          metadata_ := metadata doc |})
                           <$> docs |}
      | Raise e => Raise e
      end
  | Raise e => Raise e
  end.
Proof.
  unfold answer_question. rewrite outcome_emit, outcome_bind.
  unfold default_use_mmr.
  destruct (outcome (search _ _ _ _)) as [docs|e]; [|done].
  rewrite outcome_bind. by destruct (outcome (talker _ docs)).
Qed.

Lemma handle_question_reply request :
  (handle_question searcher talker exn_str request).2 =
  match outcome (answer_question searcher talker request) with
  | Ok r => Response r
  | Raise _ => HTTPError {| status_code := 500; detail := error_detail |}
  end.
Proof.
  unfold handle_question.
  by destruct (answer_question searcher talker request) as [ev [r|e]].
Qed.

(** X14: the endpoint answers with a response exactly when the search and
    the generator both return; whatever either raises, the caller gets
    the same [HTTPException]: status 500 and a detail that says nothing
    of the exception. *)
Theorem endpoint_hides_failures request :
  ((exists r, (handle_question searcher talker exn_str request).2
              = Response r) <->
   exists docs a,
     outcome (search searcher (query request) (count request) true) = Ok docs /\
     outcome (talker (query request) docs) = Ok a) /\
  (forall e,
     (handle_question searcher talker exn_str request).2 = HTTPError e ->
     e = {| status_code := 500; detail := error_detail |}).
Proof.
  rewrite handle_question_reply, answer_question_outcome.
  destruct (outcome (search _ _ _ _)) as [docs|e1].
  - destruct (outcome (talker _ docs)) as [a|e2] eqn:Ha.
    + split; [|done]. split; [by eauto|by eexists].
    + split; [|by intros e [= <-]]. split; [by intros [? ?]|].
      intros (docs' & a & [= <-] & Ha'). congruence.
  - split; [|by intros e [= <-]]. split; [by intros [? ?]|].
    by intros (? & ? & ? & _).
Qed.
End EndpointProofs.

Lemma search_index_calls self (q : text) k use_mmr :
  index_calls (events (search self q k use_mmr))
  = [if use_mmr then MMRSearch q k 20 (1 # 2) else SimilaritySearch q k].
Proof. by destruct use_mmr. Qed.

Lemma search_outcome self (q : text) k :
  outcome (search self q k true)
  = max_marginal_relevance_search (vector_db self) q k 20 (1 # 2).
Proof. done. Qed.

Lemma index_calls_app (a b : list event) :
  index_calls (a ++ b) = index_calls a ++ index_calls b.
Proof. apply omap_app. Qed.

Lemma join_entry (sep : text) (pieces : list text) i (p : text) :
  pieces !! i = Some p ->
  exists pre post, join sep pieces = pre ++ p ++ post.
Proof.
  revert i. induction pieces as [|q qs IH]; intros i; [done|].
  destruct i as [|i]; simpl.
  - intros [= ->]. exists []. destruct qs; [exists []|eexists]; simpl.
    + by rewrite app_nil_r.
    + done.
  - intros H. destruct (IH i H) as (pre & post & E).
    destruct qs as [|q' qs]; [done|].
    rewrite E. exists (q ++ sep ++ pre), post. by rewrite <- !app_assoc.
Qed.

Section WithGenerator.
Variable searcher : ClaimRetriever.
Variable chain : text -> text -> result text.
Variable exn_str : exn -> text.

Lemma generate_answer_outcome (q : text) (docs : list Document) :
  outcome (generate_answer chain q docs) = chain (context_text docs) q.
Proof. unfold generate_answer. by rewrite outcome_emit. Qed.

(** X15: when the search returns and the model answers, the response
    carries that answer to the numbered context, and the retrieved entries
    as sources, in the order of retrieval, so that [Source [n]] of the
    context is the [n]-th source of the response; when the search returns
    and the call of the model raises, the endpoint raises its
    [HTTPException] and there is no response. *)
Theorem response_sources_match_citations request docs :
  outcome (search searcher (query request) (count request) true) = Ok docs ->
  match chain (context_text docs) (query request) with
  | Ok reply =>
      exists r,
        (handle_question searcher (generate_answer chain) exn_str request).2
          = Response r /\
        answer r = reply /\
        length (sources r) = length docs /\
        forall i doc, docs !! i = Some doc ->
          exists src, sources r !! i = Some src /\
            text_ src = page_content doc /\ metadata_ src = metadata doc /\
            exists pre post,
              context_text docs
              = pre ++ (source_header i ++ page_content doc) ++ post
  | Raise _ =>
      (handle_question searcher (generate_answer chain) exn_str request).2
      = HTTPError {| status_code := 500; detail := error_detail |}
  end.
Proof.
  intros Hs. rewrite handle_question_reply, answer_question_outcome, Hs.
  rewrite generate_answer_outcome.
  destruct (chain (context_text docs) (query request)) as [reply|e]; [|done].
  eexists. split; [done|]. cbn [answer sources].
  split; [done|]. split; [by rewrite length_fmap|].
  intros i doc Hd. eexists. split; [by rewrite list_lookup_fmap, Hd|].
  cbn [text_ metadata_]. split; [done|]. split; [done|].
  destruct (join_entry [NEWLINE; NEWLINE] (imap source_line docs) i
              (source_line i doc)) as (pre & post & E).
  { by rewrite list_lookup_imap, Hd. }
  unfold context_text. rewrite E. unfold source_line, source_header.
  exists pre. eexists. rewrite <- !app_assoc. reflexivity.
Qed.

(** X16: a request the page sends carries the slider's value, between 1
    and 5, as [count]; the endpoint then asks the index once, in
    diversity mode, for that many entries out of a pool of 20, which
    covers them. *)
Theorem page_requests_fit_the_pool (prompt : text) v :
  slider_value v ->
  index_calls
    (handle_question searcher (generate_answer chain) exn_str
       (ask_json prompt v)).1
  = [MMRSearch prompt v 20 (1 # 2)] /\
  pool_covers (MMRSearch prompt v 20 (1 # 2)) = true /\ (0 < v)%Z.
Proof.
  intros [Hlo Hhi]. unfold slider_min, slider_max in *. split.
  - unfold handle_question, answer_question, default_use_mmr, ask_json.
    cbn [query count search].
    destruct (max_marginal_relevance_search (vector_db searcher) prompt v 20
                (1 # 2)) as [docs|e]; [|by cbn].
    unfold generate_answer. cbn.
    by destruct (chain _ _).
  - split; [|lia]. cbn. apply Z.leb_le. lia.
Qed.
End WithGenerator.

(** *** The page *)




(** X18: with the endpoint behind it, the page shows a request that
    failed in the endpoint, the search or the call of the model raising,
    as the error box [Engine Error: The API is unreachable.] and keeps
    only the prompt in the history; when both return, and the metadata of
    the entries holds values that JSON carries, the answer is shown,
    followed by one card per retrieved entry, and the answer joins the
    history. *)
Theorem page_shows_search_failure_as_unreachable
  (searcher : ClaimRetriever) (chain : text -> text -> result text)
  (exn_str : exn -> text) (other : ApiResponse -> post_result)
  v msgs (prompt : text) :
  prompt <> [] ->
  let page :=
    on_prompt
      (post_via other
         (handle_question searcher (generate_answer chain) exn_str))
      v msgs (Some prompt) in
  let failed :=
    (msgs ++ [{| msg_role := User; content := prompt |}],
     [Markdown User prompt;
      ErrorBox (codepoints "Engine Error: The API is unreachable.")],
     false) in
  match outcome (search searcher prompt v true) with
  | Raise _ => page = failed
  | Ok docs =>
      match chain (context_text docs) prompt with
      | Raise _ => page = failed
      | Ok reply =>
          Forall (fun doc =>
                    map_Forall (fun _ v => json_value v = true) (metadata doc))
            docs ->
          page =
          ((msgs ++ [{| msg_role := User; content := prompt |}])
             ++ [{| msg_role := Assistant; content := reply |}],
           Markdown User prompt :: Markdown Assistant reply
             :: imap card ((fun doc => {| text_ := page_content doc;
                                          metadata_ := metadata doc |})
                           <$> docs),
           false)
      end
  end.
Proof.
  intros Hp page failed. subst page failed.
  destruct prompt as [|c p]; [done|].
  unfold on_prompt, post_via.
  rewrite handle_question_reply, answer_question_outcome.
  cbn [ask_json query count].
  destruct (outcome (search searcher (c :: p) v true)) as [docs|e]; [|done].
  rewrite !generate_answer_outcome.
  destruct (chain (context_text docs) (c :: p)) as [reply|e]; [|done].
  intros Hj. rewrite bool_decide_true; [done|].
  unfold json_safe. cbn [sources]. by apply Forall_fmap.
Qed.

End ServiceFacts.

(** ** The properties above on concrete inputs *)

Module ExtraWitnesses.
Import Text Re Py Effects Pandas Shape Ingest Retriever Generator Words
  IngestMain Api Dashboard Samples MoreSamples.

Lemma clean_is_split_join_witness :
  _clean_tweet_content (VStr spaced_text) = join [SPACE] (split spaced_text).
Proof.
  apply (CleanFacts.clean_is_split_join spaced_text);
    vm_compute; reflexivity.
Defined.

Lemma clean_drops_url_token_witness :
  _clean_tweet_content
    (VStr (codepoints "Vaccine trials begin in Cuba " ++ codepoints "http://x.co" ++ []))
  = _clean_tweet_content
      (VStr (codepoints "Vaccine trials begin in Cuba " ++ [])).
Proof.
  apply (CleanFacts.clean_drops_url_token
           (codepoints "Vaccine trials begin in Cuba ")
           (codepoints "http://x.co") []).
  - right. vm_compute. reflexivity.
  - exists (codepoints "http"), (codepoints "://x.co").
    split; [by left|]. split; [reflexivity|]. split; [discriminate|].
    vm_compute. reflexivity.
  - exact I.
Defined.



Lemma unify_keeps_records_witness :
  exists master,
    outcome (process_and_unify two_frames) = Ok master /\
    len master = length (List.concat (rows <$> two_frames)).
Proof.
  eexists. split; [vm_compute; reflexivity|].
  apply (PipelineFacts.unify_keeps_records two_frames).
  vm_compute. reflexivity.
Defined.

Lemma script_sanity_check_needs_keys_witness :
  outcome (main read_csv keyless_build (ingestor_with utf8_file))
  = Raise KeyError.
Proof.
  eapply (PipelineFacts.script_sanity_check_needs_keys
            read_csv keyless_build (ingestor_with utf8_file)
            _ _ keyless_store [unlabelled_doc]).
  - vm_compute. reflexivity.
  - discriminate.
  - vm_compute. reflexivity.
  - reflexivity.
  - reflexivity.
Defined.

Lemma response_sources_match_citations_witness :
  exists r,
    (handle_question two_docs_retriever (generate_answer echo_chain)
       no_exn_str {| query := codepoints "vaccine trials Cuba"; count := 2 |}).2
    = Response r /\
    length (sources r) = 2%nat.
Proof.
  pose proof (ServiceFacts.response_sources_match_citations
                two_docs_retriever echo_chain no_exn_str
                {| query := codepoints "vaccine trials Cuba"; count := 2 |}
                [labelled_doc; unlabelled_doc] eq_refl) as H.
  unfold echo_chain in H. cbv beta iota in H.
  destruct H as (r & Hr & _ & Hlen & _).
  exists r. split; [exact Hr|exact Hlen].
Defined.

Lemma page_requests_fit_the_pool_witness :
  index_calls
    (handle_question two_docs_retriever (generate_answer echo_chain)
       no_exn_str (ask_json (codepoints "vaccine trials Cuba") slider_default)).1
  = [MMRSearch (codepoints "vaccine trials Cuba") slider_default 20 (1 # 2)].
Proof.
  apply (ServiceFacts.page_requests_fit_the_pool
           two_docs_retriever echo_chain no_exn_str
           (codepoints "vaccine trials Cuba") slider_default).
  unfold slider_value, slider_min, slider_max, slider_default. lia.
Defined.

Lemma page_shows_search_failure_witness :
  on_prompt
    (post_via (fun _ => ConnectionError)
       (handle_question failing_retriever (generate_answer echo_chain)
          no_exn_str))
    slider_default [] (Some (codepoints "Is this true?"))
  = ([{| msg_role := User; content := codepoints "Is this true?" |}],
     [Markdown User (codepoints "Is this true?");
      ErrorBox (codepoints "Engine Error: The API is unreachable.")],
     false).
Proof.
  apply (ServiceFacts.page_shows_search_failure_as_unreachable
           failing_retriever echo_chain no_exn_str (fun _ => ConnectionError)
           slider_default [] (codepoints "Is this true?")).
  discriminate.
Defined.

End ExtraWitnesses.
